(** * FooTable.Sorting: a shallow embedding of the sorting component

    Source: [src/js/components/core/FooTable.Sorting.js].

    The component is stateful JavaScript.  It is embedded here by explicit
    state passing over a record [FT] that holds the part of the
    [FooTable.Instance] the component reads and writes; code that can throw
    returns a [result].  The definitions keep the names of the source. *)

From Stdlib Require Import ZArith Ascii String Sorted.
From stdpp Require Import list strings.

Set Default Proof Using "Type".
Local Open Scope string_scope.
Local Open Scope Z_scope.

(** ** JavaScript values *)

(** A JavaScript number.  The model keeps the integers and NaN; fractions
    and the infinities are outside of it. *)
Inductive jsnum : Type :=
  | NaN
  | Num (z : Z).

(** The primitive values a cell, a direction argument or a definition field
    can hold. *)
Inductive value : Type :=
  | VUndefined
  | VNull
  | VBool (b : bool)
  | VNumber (n : jsnum)
  | VString (s : string).

(** [typeof v === 'string'], which is what [FooTable.is.type(v, 'string')]
    tests. *)
Definition is_string (v : value) : bool :=
  match v with VString _ => true | _ => false end.

(** [String.prototype.toLowerCase] on one code unit.  Strings are sequences
    of ASCII characters; only 'A'..'Z' have a lower-case form there. *)
Definition toLowerCase_unit (c : ascii) : ascii :=
  let n := nat_of_ascii c in
  if ((65 <=? n) && (n <=? 90))%nat then ascii_of_nat (n + 32) else c.

Fixpoint toLowerCase (s : string) : string :=
  match s with
  | EmptyString => EmptyString
  | String c s' => String (toLowerCase_unit c) (toLowerCase s')
  end.

(** [v.toLowerCase()], called on strings only. *)
Definition value_toLowerCase (v : value) : value :=
  match v with VString s => VString (toLowerCase s) | _ => v end.

(** The strict equality [a === b]. *)
Definition strict_eq (a b : value) : bool :=
  match a, b with
  | VUndefined, VUndefined => true
  | VNull, VNull => true
  | VBool x, VBool y => Bool.eqb x y
  | VNumber (Num x), VNumber (Num y) => x =? y
  | VString s, VString t => String.eqb s t
  | _, _ => false
  end.

(** The sign of a sorter's result as [Array.prototype.sort] reads it: NaN
    counts as 0. *)
Definition sort_order (n : jsnum) : Z :=
  match n with NaN => 0 | Num z => z end.

(** [n <= 0] on a JavaScript number: false on NaN. *)
Definition le_zero (n : jsnum) : Prop :=
  match n with NaN => False | Num z => z <= 0 end.

(** [n >= 0] on a JavaScript number: false on NaN. *)
Definition ge_zero (n : jsnum) : Prop :=
  match n with NaN => False | Num z => 0 <= z end.

(** A sorter, the type of [FooTable.Column#sorter].  The source passes the
    options object as a third argument; it is the same object for every call
    of one sort, so a sorter that reads it is its partial application. *)
Definition sorter_fn : Type := value -> value -> jsnum.

Section Sorters.

(** The engine's conversion of a string to a number ([Number(s)]), which
    the relational and arithmetic operators apply to a string operand that
    meets a non-string one. *)
Variable StringToNumber : string -> jsnum.

Definition ToNumber (v : value) : jsnum :=
  match v with
  | VUndefined => NaN
  | VNull => Num 0
  | VBool b => Num (if b then 1 else 0)
  | VNumber n => n
  | VString s => StringToNumber s
  end.

(** The relational operator [a < b]: two strings compare by code units,
    anything else compares as numbers, and a NaN makes it false. *)
Definition js_lt (a b : value) : bool :=
  match a, b with
  | VString s, VString t => String.ltb s t
  | _, _ =>
      match ToNumber a, ToNumber b with
      | Num x, Num y => x <? y
      | _, _ => false
      end
  end.

(** The arithmetic operator [a - b].  The difference is the one of the
    doubles while it is an integer of magnitude 2^53 at most, which a double
    holds exactly. *)
Definition js_sub (a b : value) : jsnum :=
  match ToNumber a, ToNumber b with
  | Num x, Num y => Num (x - y)
  | _, _ => NaN
  end.

(** [FooTable.Defaults.prototype.sorters.text] (lines 71-77). *)
Definition text (a b : value) : jsnum :=
  let a := if is_string a then value_toLowerCase a else a in
  let b := if is_string b then value_toLowerCase b else b in
  if strict_eq a b then Num 0
  else if js_lt a b then Num (-1)
  else Num 1.

(** [FooTable.Defaults.prototype.sorters.number] (lines 78-80). *)
Definition number (a b : value) : jsnum := js_sub a b.

(** [FooTable.Defaults.prototype.sorters]: the registry of sorters by
    column type, an object used as a map from names to functions. *)
Definition sorters : list (string * sorter_fn) :=
  [("text", text); ("number", number)].

End Sorters.

(** ** Errors *)

(** The exception a property read on [null] or [undefined], or a call of a
    non-function, raises. *)
Inductive exn : Type :=
  | TypeError.

Inductive result (A : Type) : Type :=
  | Ok (a : A)
  | Throw (e : exn).
Arguments Ok {A} a.
Arguments Throw {A} e.

Definition bind {A B : Type} (r : result A) (k : A -> result B) : result B :=
  match r with
  | Ok a => k a
  | Throw e => Throw e
  end.

Notation "x <- r ;; k" := (bind r (fun x => k))
  (at level 100, r at next level, right associativity).

(** ** The data model *)

(** A header cell ([column.$el]): its class list, and the class list of each
    of its child [span] elements. *)
Record Element : Type := {
  classes : list string;
  spans : list (list string)
}.

(** A reference to a column: [null] (or [undefined]), a name, a position,
    or a [FooTable.Column] object.  Column objects are shared and compared
    by identity ([col == self.o.column]); an object is identified by its
    position in [ft.columns.array], and a position outside of the array
    stands for no object. *)
Inductive colref : Type :=
  | CNull
  | CName (s : string)
  | CIndex (n : nat)
  | CColumn (h : nat).

(** [FooTable.Column], with the four fields the component adds (lines 8-26)
    and the fields of the column it reads. *)
Record Column : Type := {
  col_name : string;
  col_index : nat;
  col_sorter : option sorter_fn;
  col_direction : option string;
  col_sortable : bool;
  col_sorted : bool;
  col_el : Element
}.

(** A row: the [value] of each of its cells, by column index. *)
Record Row : Type := {
  cells : list value
}.

(** [FooTable.Defaults.prototype.sorting] (lines 35-39), the object behind
    [this.o]. *)
Record SortingOptions : Type := {
  enabled : bool;
  column : colref;
  direction : option string
}.

(** [FooTable.Sorter], the object handed to the listeners of both events. *)
Record Sorter : Type := {
  s_column : colref;
  s_direction : value
}.

(** [FooTable.RequestData] with the two fields of lines 88 and 95. *)
Record RequestData : Type := {
  sortColumn : value;
  sortDirection : option string
}.

(** An event raised through [ft.raise], with the sorter passed along. *)
Record Event : Type := {
  ev_name : string;
  ev_args : list Sorter
}.

(** A listener of ['change.ft.sorting']: it is handed the sorter, which it
    may mutate, and may call [preventDefault]. *)
Definition Listener : Type := Sorter -> Sorter * bool.

(** A column definition, as [ctor_column] reads it: a field that fails the
    type test of the source is [None]. *)
Record ColumnDefinition : Type := {
  d_type : option string;
  d_sorter : option sorter_fn;
  d_direction : value;
  d_sortable : option bool;
  d_sorted : option bool
}.

(** The part of [FooTable.Instance] the component works on. *)
Record FT : Type := {
  o : SortingOptions;
  ajaxEnabled : bool;
  options_sorters : list (string * sorter_fn);
  columns : list Column;
  rows : list Row;
  table_classes : list string;
  click_handlers : nat;
  listeners : list Listener;
  events : list Event;
  requests : list RequestData
}.

Definition set_o (st : FT) (v : SortingOptions) : FT :=
  {| o := v; ajaxEnabled := ajaxEnabled st;
     options_sorters := options_sorters st; columns := columns st;
     rows := rows st; table_classes := table_classes st;
     click_handlers := click_handlers st; listeners := listeners st;
     events := events st; requests := requests st |}.

Definition set_columns (st : FT) (v : list Column) : FT :=
  {| o := o st; ajaxEnabled := ajaxEnabled st;
     options_sorters := options_sorters st; columns := v;
     rows := rows st; table_classes := table_classes st;
     click_handlers := click_handlers st; listeners := listeners st;
     events := events st; requests := requests st |}.

Definition set_rows (st : FT) (v : list Row) : FT :=
  {| o := o st; ajaxEnabled := ajaxEnabled st;
     options_sorters := options_sorters st; columns := columns st;
     rows := v; table_classes := table_classes st;
     click_handlers := click_handlers st; listeners := listeners st;
     events := events st; requests := requests st |}.

Definition set_table_classes (st : FT) (v : list string) : FT :=
  {| o := o st; ajaxEnabled := ajaxEnabled st;
     options_sorters := options_sorters st; columns := columns st;
     rows := rows st; table_classes := v;
     click_handlers := click_handlers st; listeners := listeners st;
     events := events st; requests := requests st |}.

Definition set_click_handlers (st : FT) (v : nat) : FT :=
  {| o := o st; ajaxEnabled := ajaxEnabled st;
     options_sorters := options_sorters st; columns := columns st;
     rows := rows st; table_classes := table_classes st;
     click_handlers := v; listeners := listeners st;
     events := events st; requests := requests st |}.

Definition set_events (st : FT) (v : list Event) : FT :=
  {| o := o st; ajaxEnabled := ajaxEnabled st;
     options_sorters := options_sorters st; columns := columns st;
     rows := rows st; table_classes := table_classes st;
     click_handlers := click_handlers st; listeners := listeners st;
     events := v; requests := requests st |}.

Definition set_requests (st : FT) (v : list RequestData) : FT :=
  {| o := o st; ajaxEnabled := ajaxEnabled st;
     options_sorters := options_sorters st; columns := columns st;
     rows := rows st; table_classes := table_classes st;
     click_handlers := click_handlers st; listeners := listeners st;
     events := events st; requests := v |}.

Definition set_direction (col : Column) (d : option string) : Column :=
  {| col_name := col_name col; col_index := col_index col;
     col_sorter := col_sorter col; col_direction := d;
     col_sortable := col_sortable col; col_sorted := col_sorted col;
     col_el := col_el col |}.

Definition set_el (col : Column) (e : Element) : Column :=
  {| col_name := col_name col; col_index := col_index col;
     col_sorter := col_sorter col; col_direction := col_direction col;
     col_sortable := col_sortable col; col_sorted := col_sorted col;
     col_el := e |}.

(** ** Class lists (jQuery's [hasClass], [addClass], [removeClass]) *)

Definition hasClass (c : string) (cl : list string) : bool :=
  existsb (String.eqb c) cl.

Definition addClass (c : string) (cl : list string) : list string :=
  if hasClass c cl then cl else cl ++ [c].

Definition removeClass (c : string) (cl : list string) : list string :=
  List.filter (fun x => negb (String.eqb c x)) cl.

(** [$e.children(sel).f(...)] for a class selector: [f] on the class list
    of every child span that has the class. *)
Definition on_children (sel : string) (f : list string -> list string)
    (e : Element) : Element :=
  {| classes := classes e;
     spans := map (fun sp => if hasClass sel sp then f sp else sp) (spans e) |}.

Definition on_classes (f : list string -> list string) (e : Element) : Element :=
  {| classes := f (classes e); spans := spans e |}.

(** ** The collaborators of the component *)

Fixpoint find_index {A : Type} (p : A -> bool) (l : list A) : option nat :=
  match l with
  | [] => None
  | x :: l' => if p x then Some 0%nat else option_map S (find_index p l')
  end.

(** Modelled from the spec: [ft.columns.get], the column lookup of the table
    widget, is not part of the component's file.  A reference is a column
    name, a positional index or a column object, and a reference to no
    existing column yields no match. *)
Definition columns_get (cols : list Column) (c : colref) : colref :=
  match c with
  | CNull => CNull
  | CName s =>
      match find_index (fun col => String.eqb (col_name col) s) cols with
      | Some i => CColumn i
      | None => CNull
      end
  | CIndex n => if (n <? length cols)%nat then CColumn n else CNull
  | CColumn h => if (h <? length cols)%nat then CColumn h else CNull
  end.

(** Modelled from the spec: [ft.columns.first], which is not part of the
    component's file either: the first column the predicate holds of, or no
    match. *)
Definition columns_first (cols : list Column) (p : Column -> bool) : colref :=
  match find_index p cols with
  | Some i => CColumn i
  | None => CNull
  end.

(** [ft.raise(name, args)]: the event is dispatched on the table.  The
    dispatch itself belongs to the event bus; the model records the event. *)
Definition raise (st : FT) (name : string) (args : list Sorter) : FT :=
  set_events st (events st ++ [{| ev_name := name; ev_args := args |}]).

(** The listeners of a cancellable event run in registration order on the
    one sorter object; [isDefaultPrevented] holds when one of them called
    [preventDefault]. *)
Fixpoint run_listeners (ls : list Listener) (s : Sorter) : Sorter * bool :=
  match ls with
  | [] => (s, false)
  | f :: ls' =>
      let '(s1, p1) := f s in
      let '(s2, p2) := run_listeners ls' s1 in
      (s2, p1 || p2)
  end.

(** [Array.prototype.sort(comparefn)], the engine's.  ECMAScript asks for a
    stable sort; the model is the stable insertion sort, the comparisons
    running from the end of the array.  A [comparefn] that throws ends the
    sort with its exception. *)
Fixpoint sort_insert {A : Type} (comparefn : A -> A -> result jsnum)
    (x : A) (l : list A) : result (list A) :=
  match l with
  | [] => Ok [x]
  | y :: l' =>
      v <- comparefn x y;;
      if sort_order v <=? 0 then Ok (x :: y :: l')
      else (r <- sort_insert comparefn x l';; Ok (y :: r))
  end.

Fixpoint array_sort {A : Type} (comparefn : A -> A -> result jsnum)
    (l : list A) : result (list A) :=
  match l with
  | [] => Ok []
  | x :: l' => s <- array_sort comparefn l';; sort_insert comparefn x s
  end.

(** ** Reading through a column reference *)

(** [!c] for a column reference: [null], the empty string and 0 are falsy,
    an object is not. *)
Definition falsy_column (c : colref) : bool :=
  match c with
  | CNull => true
  | CName s => String.eqb s EmptyString
  | CIndex n => (n =? 0)%nat
  | CColumn _ => false
  end.

(** [!d] for a direction: [null] and the empty string are falsy. *)
Definition falsy_direction (d : option string) : bool :=
  match d with
  | None => true
  | Some s => String.eqb s EmptyString
  end.

(** [d == 'ASC'] for a direction. *)
Definition is_ASC (d : option string) : bool :=
  match d with
  | None => false
  | Some s => String.eqb s "ASC"
  end.

(** [c.name]: a [TypeError] on [null], [undefined] on a string or a number,
    the name of a column object. *)
Definition column_name (cols : list Column) (c : colref) : result value :=
  match c with
  | CNull => Throw TypeError
  | CName _ | CIndex _ => Ok VUndefined
  | CColumn h =>
      match cols !! h with
      | Some col => Ok (VString (col_name col))
      | None => Throw TypeError
      end
  end.

(** [row.cells[i].value]: a [TypeError] when the row has no such cell. *)
Definition cell_value (r : Row) (i : nat) : result value :=
  match cells r !! i with
  | Some v => Ok v
  | None => Throw TypeError
  end.

(** [col == c], the identity test of the two [$.each] loops. *)
Definition is_column (c : colref) (i : nat) : bool :=
  match c with
  | CColumn h => (i =? h)%nat
  | _ => false
  end.

(** ** The component: protected methods *)

(** [ctor_column] (lines 136-142).  [FooTable.checkFnPropValue(f, def)]
    gives [f] when it is a function and [def] otherwise; [x || y] on two
    registry entries gives the first that exists.  The registry is read by
    its own entries; a type that names a member of [Object.prototype],
    which a plain object inherits, is outside of this model. *)
Definition ctor_column (st : FT) (col : Column) (definition : ColumnDefinition)
    : Column :=
  let registered (ty : string) : option sorter_fn :=
    option_map snd
      (List.find (fun e => String.eqb (fst e) ty) (options_sorters st)) in
  let by_type :=
    match d_type definition with
    | Some ty => registered ty
    | None => None
    end in
  let fallback :=
    match by_type with
    | Some f => Some f
    | None => registered "text"
    end in
  let sorter :=
    match d_sorter definition with
    | Some f => Some f
    | None => fallback
    end in
  let direction :=
    match d_direction definition with
    | VString s => Some s
    | _ => None
    end in
  let sortable :=
    match d_sortable definition with Some b => b | None => true end in
  let sorted :=
    match d_sorted definition with Some b => b | None => false end in
  {| col_name := col_name col; col_index := col_index col;
     col_sorter := sorter; col_direction := direction;
     col_sortable := sortable; col_sorted := sorted;
     col_el :=
       if enabled (o st) && sortable
       then on_classes (addClass "footable-sortable") (col_el col)
       else col_el col |}.

(** [destroy] (lines 187-193). *)
Definition destroy (st : FT) : FT :=
  if negb (enabled (o st)) then st
  else
    let st1 := set_click_handlers st 0%nat in
    set_columns st1
      (map (fun col =>
              let e := col_el col in
              if hasClass "footable-sortable" (classes e)
              then set_el col
                     {| classes := removeClass "footable-sortable" (classes e);
                        spans := List.filter
                                   (fun sp => negb (hasClass "direction" sp))
                                   (spans e) |}
              else col)
           (columns st1)).

(** [preajax] (lines 200-204). *)
Definition preajax (st : FT) (data : RequestData) : result RequestData :=
  if negb (enabled (o st)) then Ok data
  else
    name <- column_name (columns st) (column (o st));;
    Ok {| sortColumn := name; sortDirection := direction (o st) |}.

(** The function handed to [rows.array.sort] in [predraw] (lines 218-222). *)
Definition predraw_compare (st : FT) (a b : Row) : result jsnum :=
  match column (o st) with
  | CColumn h =>
      match columns st !! h with
      | Some col =>
          va <- cell_value a (col_index col);;
          vb <- cell_value b (col_index col);;
          match col_sorter col with
          | Some sorter =>
              Ok (if is_ASC (direction (o st))
                  then sorter va vb
                  else sorter vb va)
          | None => Throw TypeError
          end
      | None => Throw TypeError
      end
  | _ => Throw TypeError
  end.

(** [predraw] (lines 210-223). *)
Definition predraw (st : FT) : result FT :=
  if negb (enabled (o st))
     || ajaxEnabled st
     || falsy_column (column (o st))
     || falsy_direction (direction (o st))
  then Ok st
  else
    sorted_rows <- array_sort (predraw_compare st) (rows st);;
    Ok (set_rows st sorted_rows).

(** [draw] (lines 229-239).  [$sortable] is the header cells that carry
    ['footable-sortable'], [$active] the header cell of the sorted column. *)
Definition draw (st : FT) : result FT :=
  if negb (enabled (o st))
     || falsy_column (column (o st))
     || falsy_direction (direction (o st))
  then Ok st
  else
    match column (o st) with
    | CColumn h =>
        if (h <? length (columns st))%nat then
          let asc := is_ASC (direction (o st)) in
          let sortable (col : Column) :=
            hasClass "footable-sortable" (classes (col_el col)) in
          let clear (e : Element) :=
            on_children "fooicon"
              (fun sp => removeClass "fooicon-sort-desc"
                           (removeClass "fooicon-sort-asc"
                              (removeClass "fooicon-sort" sp)))
              (on_classes
                 (fun cl => removeClass "footable-desc"
                              (removeClass "footable-asc" cl)) e) in
          let inactive (e : Element) :=
            on_children "fooicon" (addClass "fooicon-sort") e in
          let active (e : Element) :=
            on_children "fooicon"
              (addClass (if asc then "fooicon-sort-asc" else "fooicon-sort-desc"))
              (on_classes
                 (addClass (if asc then "footable-asc" else "footable-desc")) e) in
          Ok (set_columns st
                (imap (fun i col =>
                         let e1 :=
                           if sortable col then clear (col_el col)
                           else col_el col in
                         let e2 :=
                           if sortable col && negb (i =? h)%nat
                           then inactive e1 else e1 in
                         set_el col (if (i =? h)%nat then active e2 else e2))
                      (columns st)))
        else Throw TypeError
    | _ => Throw TypeError
    end.

(** ** The component: private methods *)

(** The [$.each] loop of lines 308-311 (and of lines 273-276): the sorted
    column takes the direction, every other column [null]. *)
Definition each_direction (c : colref) (d : option string)
    (cols : list Column) : list Column :=
  imap (fun i col =>
          if is_column c i then set_direction col d
          else set_direction col None)
       cols.

(** [c.direction] for the column reference [c], when [c] is not [null]:
    [undefined] (here [None], as both are [== null]) unless [c] is a column
    object. *)
Definition column_direction (cols : list Column) (c : colref) : option string :=
  match c with
  | CColumn h =>
      match cols !! h with
      | Some col => col_direction col
      | None => None
      end
  | _ => None
  end.

(** [_generate] (lines 262-281).  [options] is the options object of the
    instance, the one [this.o] points into. *)
Definition _generate (st : FT) : FT :=
  let cols := columns st in
  let c :=
    match columns_get cols (column (o st)) with
    | CNull => columns_first cols col_sorted
    | found => found
    end in
  let d :=
    match c with
    | CNull => None
    | _ =>
        match direction (o st) with
        | None =>
            match column_direction cols c with
            | None => Some "ASC"
            | Some cd => Some cd
            end
        | Some od => Some od
        end
    end in
  let st1 := set_o st {| enabled := enabled (o st); column := c; direction := d |} in
  let st2 := set_columns st1 (each_direction c d cols) in
  let st3 := set_table_classes st2 (addClass "footable-sorting" (table_classes st2)) in
  let st4 :=
    set_columns st3
      (map (fun col =>
              if col_sortable col
              then set_el col
                     {| classes := classes (col_el col);
                        spans := spans (col_el col) ++ [["fooicon"; "fooicon-sort"]] |}
              else col)
           (columns st3)) in
  set_click_handlers st4 (S (click_handlers st4)).

(** [init] (lines 151-161). *)
Definition init (st : FT) : FT :=
  if negb (enabled (o st)) then st
  else raise (_generate st) "sorting_init" [].

(** [reinit] (lines 170-181). *)
Definition reinit (st : FT) : FT :=
  let st1 := destroy st in
  if negb (enabled (o st1)) then st1
  else raise (_generate st1) "sorting_reinit" [].

(** [_direction] (lines 327-329). *)
Definition _direction (str : value) : string :=
  match str with
  | VString s => if String.eqb s "ASC" || String.eqb s "DESC" then s else "ASC"
  | _ => "ASC"
  end.

(** A request as [new FooTable.RequestData()] makes it (lines 88 and 95). *)
Definition new_RequestData : RequestData :=
  {| sortColumn := VNull; sortDirection := None |}.

(** Modelled from the spec: [ft.update], the refresh of the table widget, is
    not part of the component's file.  A refresh, when remote-sourced,
    populates the two request fields on a fresh request (the [preajax] hook)
    and sends it; in both modes it then runs the draw cycle, of which the
    component has the [predraw] and [draw] hooks. *)
Definition update (st : FT) : result FT :=
  if ajaxEnabled st then
    data <- preajax st new_RequestData;;
    let st1 := set_requests st (requests st ++ [data]) in
    st2 <- predraw st1;;
    draw st2
  else
    st1 <- predraw st;;
    draw st1.

(** How a call of [_sort] ends: the promise it returns is resolved, or an
    exception leaves the call. *)
Inductive outcome : Type :=
  | Resolved
  | Raised (e : exn).

(** The sorter [_sort] builds from its arguments (line 296). *)
Definition new_Sorter (st : FT) (col : colref) (dir : value) : Sorter :=
  {| s_column := columns_get (columns st) col;
     s_direction := VString (_direction dir) |}.

(** [_sort] (lines 294-321).  The table widget resolves the promise of
    [update] within the call; the state at an exception is the state at the
    start of [update]. *)
Definition _sort (st : FT) (col : colref) (dir : value) (redraw : bool)
    : FT * outcome :=
  let sorter := new_Sorter st col dir in
  let st1 := raise st "change.ft.sorting" [sorter] in
  let '(sorter, prevented) := run_listeners (listeners st1) sorter in
  if prevented then (st1, Resolved)
  else
    let st2 :=
      set_o st1
        {| enabled := enabled (o st1);
           column := columns_get (columns st1) (s_column sorter);
           direction := Some (_direction (s_direction sorter)) |} in
    match (if redraw then update st2 else Ok st2) with
    | Throw e => (st2, Raised e)
    | Ok st3 =>
        let st4 :=
          set_columns st3
            (each_direction (column (o st3)) (direction (o st3)) (columns st3)) in
        (raise st4 "changed.ft.sorting" [sorter], Resolved)
    end.

(** The state right after the commit of lines 305-306. *)
Definition committed (st : FT) (col : colref) (dir : value) (s : Sorter) : FT :=
  set_o (raise st "change.ft.sorting" [new_Sorter st col dir])
    {| enabled := enabled (o st);
       column := columns_get (columns st) (s_column s);
       direction := Some (_direction (s_direction s)) |}.

(** ** The component: public method *)

(** [sort] (lines 251-253), and [FooTable.Instance.prototype.sort]
    (lines 358-360), which hands its arguments to it. *)
Definition sort (st : FT) (col : colref) (dir : value) : FT * outcome :=
  _sort st col dir true.

(** The direction [_onSortClicked] asks for (lines 339-341), from the class
    list of the clicked header. *)
Definition clicked_direction (header : list string) : string :=
  if hasClass "footable-asc" header || hasClass "footable-desc" header
  then (if hasClass "footable-desc" header then "ASC" else "DESC")
  else "ASC".

(** [_onSortClicked] (lines 336-343), for a click on the header cell at
    position [i] of the header row. *)
Definition _onSortClicked (st : FT) (i : nat) : FT * outcome :=
  match columns st !! i with
  | Some c =>
      _sort st (CIndex i) (VString (clicked_direction (classes (col_el c)))) true
  | None => (st, Resolved)
  end.

(** ** Sample tables *)

(** A header cell with no class and no child. *)
Definition plain_header : Element := {| classes := []; spans := [] |}.

(** A column as [FooTable.Column.prototype] leaves it (lines 8-26), before
    [ctor_column]. *)
Definition blank_column (name : string) (index : nat) : Column :=
  {| col_name := name; col_index := index; col_sorter := None;
     col_direction := None; col_sortable := true; col_sorted := false;
     col_el := plain_header |}.

(** A definition that names a type and nothing else. *)
Definition typed (ty : string) : ColumnDefinition :=
  {| d_type := Some ty; d_sorter := None; d_direction := VUndefined;
     d_sortable := None; d_sorted := None |}.

(** An instance with no column and no row yet. *)
Definition empty_table (S2N : string -> jsnum) (enable remote : bool) : FT :=
  {| o := {| enabled := enable; column := CNull; direction := None |};
     ajaxEnabled := remote; options_sorters := sorters S2N;
     columns := []; rows := []; table_classes := []; click_handlers := 0%nat;
     listeners := []; events := []; requests := [] |}.

(** An initialised instance: the columns are constructed from their
    definitions, the rows are loaded and [init] has run. *)
Definition table_of (S2N : string -> jsnum) (enable remote : bool)
    (defs : list (string * ColumnDefinition)) (rs : list (list value)) : FT :=
  let st0 := empty_table S2N enable remote in
  let cols :=
    imap (fun i d => ctor_column st0 (blank_column (fst d) i) (snd d)) defs in
  init (set_rows (set_columns st0 cols) (map (fun r => {| cells := r |}) rs)).

(** The rows [{v:"Bob"}, {v:"alice"}, {v:"Carl"}] under one column [v] of
    type text. *)
Definition names_table (S2N : string -> jsnum) : FT :=
  table_of S2N true false [("v", typed "text")]
    [[VString "Bob"]; [VString "alice"]; [VString "Carl"]].

(** Two columns, of which [price] is a number, and three rows. *)
Definition price_table (S2N : string -> jsnum) (enable remote : bool) : FT :=
  table_of S2N enable remote [("name", typed "text"); ("price", typed "number")]
    [[VString "pear"; VNumber (Num 3)];
     [VString "fig"; VNumber (Num 1)];
     [VString "kiwi"; VNumber (Num 2)]].

(** [$table.on('change.ft.sorting', f)]: one more listener of the
    cancellable event. *)
Definition on_change (st : FT) (f : Listener) : FT :=
  {| o := o st; ajaxEnabled := ajaxEnabled st;
     options_sorters := options_sorters st; columns := columns st;
     rows := rows st; table_classes := table_classes st;
     click_handlers := click_handlers st; listeners := listeners st ++ [f];
     events := events st; requests := requests st |}.

(** A listener that cancels. *)
Definition cancelling : Listener := fun s => (s, true).

(** A listener that asks for the column [name], descending, whatever the
    sorter says. *)
Definition redirecting : Listener :=
  fun _ => ({| s_column := CName "name"; s_direction := VString "DESC" |}, false).

(** A conversion for the sample tables, none of which converts a string. *)
Definition no_conversion (s : string) : jsnum := NaN.


(** Whether a column has a direction that is not [null]. *)
Definition has_direction (c : Column) : bool :=
  match col_direction c with
  | Some _ => true
  | None => false
  end.

(** The number of columns whose direction is not [null]. *)
Definition directed (cols : list Column) : nat :=
  length (List.filter has_direction cols).

(** A definition that names a type and declares a direction. *)
Definition typed_directed (ty dir : string) : ColumnDefinition :=
  {| d_type := Some ty; d_sorter := None; d_direction := VString dir;
     d_sortable := None; d_sorted := None |}.

(** Two columns that both declare a direction, on a table with sorting
    disabled. *)
Definition declared_table (S2N : string -> jsnum) : FT :=
  table_of S2N false false
    [("name", typed_directed "text" "ASC");
     ("price", typed_directed "number" "DESC")]
    [].


(** ** Orderings *)

(** The values of the cells at index [i], row by row; [None] when a row has
    no such cell. *)
Definition column_values (i : nat) (rs : list Row) : option (list value) :=
  mapM (fun r => cells r !! i) rs.

(** A sorter is a consistent comparator on [vals] (ECMAScript's term for
    what [Array.prototype.sort] expects): on these values it returns numbers,
    swapping the operands swaps the sign, and [<= 0] is transitive. *)
Definition consistent (f : sorter_fn) (vals : list value) : Prop :=
  (forall a b, a ∈ vals -> b ∈ vals ->
     exists x y, f a b = Num x /\ f b a = Num y /\ Z.sgn x = - Z.sgn y)
  /\ (forall a b c, a ∈ vals -> b ∈ vals -> c ∈ vals ->
        le_zero (f a b) -> le_zero (f b c) -> le_zero (f a c)).

Definition le_zerob (n : jsnum) : bool :=
  match n with NaN => false | Num z => z <=? 0 end.

(** The same, as a test. *)
Definition consistentb (f : sorter_fn) (vals : list value) : bool :=
  forallb (fun a =>
    forallb (fun b =>
      match f a b, f b a with
      | Num x, Num y => Z.sgn x =? - Z.sgn y
      | _, _ => false
      end
      && forallb (fun c =>
           implb (le_zerob (f a b) && le_zerob (f b c)) (le_zerob (f a c)))
           vals)
      vals)
    vals.


(** [x] may stand before [y] under [comparefn]: the comparator returns, and
    does not say greater. *)
Definition before {A : Type} (comparefn : A -> A -> result jsnum) (x y : A)
    : Prop :=
  exists n, comparefn x y = Ok n /\ sort_order n <= 0.


(** Two rows whose cell under a text column is [null] and [undefined]. *)
Definition sparse_table (S2N : string -> jsnum) : FT :=
  set_o
    (table_of S2N true false [("v", typed "text")] [[VNull]; [VUndefined]])
    {| enabled := true; column := CColumn 0; direction := Some "ASC" |}.

(** [price_table] with local data, [price] descending as the committed
    sort. *)
Definition price_descending (S2N : string -> jsnum) : FT :=
  set_o (price_table S2N true false)
    {| enabled := true; column := CColumn 1; direction := Some "DESC" |}.


(** ** Predicates of the further properties *)

(** Two columns that differ in their direction and header cell at most. *)
Definition same_column (c c' : Column) : Prop :=
  col_name c' = col_name c /\ col_index c' = col_index c
  /\ col_sorter c' = col_sorter c /\ col_sortable c' = col_sortable c
  /\ col_sorted c' = col_sorted c.

(** The icon [_generate] appends to a header (line 279). *)
Definition sort_icon : list string := ["fooicon"; "fooicon-sort"].


(** What [draw] makes of the header cell [e] at position [i], when the
    sorted column is at position [h] and [asc] says whether the direction
    is "ASC" (lines 235-238, for one header). *)
Definition draw_header (h : nat) (asc : bool) (i : nat) (e : Element) : Element :=
  let sortable := hasClass "footable-sortable" (classes e) in
  let e1 :=
    if sortable
    then on_children "fooicon"
           (fun sp => removeClass "fooicon-sort-desc"
                        (removeClass "fooicon-sort-asc"
                           (removeClass "fooicon-sort" sp)))
           (on_classes
              (fun cl => removeClass "footable-desc"
                           (removeClass "footable-asc" cl)) e)
    else e in
  let e2 :=
    if sortable && negb (i =? h)%nat
    then on_children "fooicon" (addClass "fooicon-sort") e1
    else e1 in
  if (i =? h)%nat
  then on_children "fooicon"
         (addClass (if asc then "fooicon-sort-asc" else "fooicon-sort-desc"))
         (on_classes
            (addClass (if asc then "footable-asc" else "footable-desc")) e2)
  else e2.


(** The classes [draw] does not take off a header, and those it does not
    take off an icon (line 235). *)
Definition not_a_mark (x : string) : bool :=
  negb (String.eqb "footable-asc" x) && negb (String.eqb "footable-desc" x).

Definition not_an_icon_mark (x : string) : bool :=
  negb (String.eqb "fooicon-sort" x)
  && (negb (String.eqb "fooicon-sort-asc" x)
      && negb (String.eqb "fooicon-sort-desc" x)).

(** The class list [draw] leaves on a header, from the one it finds:
    [sortable] says whether the header carries ['footable-sortable'],
    [here] whether it is the header of the sorted column. *)
Definition drawn_classes (sortable here asc : bool) (cl : list string)
    : list string :=
  let cl1 := if sortable then List.filter not_a_mark cl else cl in
  if here then addClass (if asc then "footable-asc" else "footable-desc") cl1
  else cl1.

(** The class list [draw] leaves on a child span of such a header. *)
Definition drawn_icon (sortable here asc : bool) (sp : list string)
    : list string :=
  if hasClass "fooicon" sp then
    let sp1 := if sortable then List.filter not_an_icon_mark sp else sp in
    if here
    then addClass (if asc then "fooicon-sort-asc" else "fooicon-sort-desc") sp1
    else if sortable then addClass "fooicon-sort" sp1 else sp1
  else sp.


(** ** Domains and samples of the revised properties *)

(** A listener that writes a direction that is not one of the two literals
    into the sorter, and does not cancel. *)
Definition misdirecting : Listener :=
  fun s => ({| s_column := s_column s; s_direction := VString "sideways" |}, false).


(** The names [Object.prototype] gives every plain object.  The registry
    of sorters is such an object, so [sorters[type]] for one of these names
    reads the inherited member, not a sorter: such types are outside of
    what [ctor_column] above says. *)
Definition Object_prototype_names : list string :=
  ["constructor"; "hasOwnProperty"; "isPrototypeOf"; "propertyIsEnumerable";
   "toLocaleString"; "toString"; "valueOf"; "__proto__";
   "__defineGetter__"; "__defineSetter__"; "__lookupGetter__";
   "__lookupSetter__"].

Definition inherited (ty : string) : bool :=
  existsb (String.eqb ty) Object_prototype_names.

(** The integers whose differences a double holds exactly: those of
    magnitude 2^52 at most. *)
Definition exact_difference (z : Z) : Prop := Z.abs z <= 2 ^ 52.

(** [price_table] with one more child span, of class ['direction'], under
    every header. *)
Definition directed_headers (S2N : string -> jsnum) : FT :=
  let st := price_table S2N true false in
  set_columns st
    (map (fun c => set_el c {| classes := classes (col_el c);
                               spans := spans (col_el c) ++ [["direction"]] |})
         (columns st)).


(** * Properties *)

(** ** The hooks leave the rest of the state alone *)

Lemma predraw_frame (st st' : FT) :
  predraw st = Ok st' ->
  o st' = o st /\ ajaxEnabled st' = ajaxEnabled st /\ columns st' = columns st
  /\ events st' = events st /\ requests st' = requests st
  /\ listeners st' = listeners st.
Proof.
  unfold predraw. intros H.
  destruct (negb (enabled (o st)) || ajaxEnabled st
            || falsy_column (column (o st))
            || falsy_direction (direction (o st))).
  - injection H as <-. repeat split.
  - destruct (array_sort (predraw_compare st) (rows st)); simpl in H;
      [injection H as <-; repeat split | discriminate].
Qed.

Lemma draw_frame (st st' : FT) :
  draw st = Ok st' ->
  o st' = o st /\ ajaxEnabled st' = ajaxEnabled st /\ rows st' = rows st
  /\ events st' = events st /\ requests st' = requests st
  /\ listeners st' = listeners st
  /\ length (columns st') = length (columns st).
Proof.
  unfold draw. intros H.
  destruct (negb (enabled (o st)) || falsy_column (column (o st))
            || falsy_direction (direction (o st))).
  - injection H as <-. repeat split.
  - destruct (column (o st)); try discriminate.
    destruct (h <? length (columns st))%nat; try discriminate.
    injection H as <-. simpl. repeat split. apply length_imap.
Qed.

Lemma update_frame (st st' : FT) :
  update st = Ok st' ->
  o st' = o st /\ events st' = events st /\ listeners st' = listeners st
  /\ length (columns st') = length (columns st).
Proof.
  unfold update. intros H.
  destruct (ajaxEnabled st).
  - destruct (preajax st _) as [data|]; simpl in H; [|discriminate].
    destruct (predraw _) as [st2|] eqn:Hp; simpl in H; [|discriminate].
    apply predraw_frame in Hp. apply draw_frame in H.
    simpl in Hp. intuition congruence.
  - destruct (predraw st) as [st1|] eqn:Hp; simpl in H; [|discriminate].
    apply predraw_frame in Hp. apply draw_frame in H.
    intuition congruence.
Qed.

Lemma predraw_disabled (st : FT) :
  enabled (o st) = false -> predraw st = Ok st.
Proof. unfold predraw. intros ->. reflexivity. Qed.

Lemma predraw_remote (st : FT) :
  ajaxEnabled st = true -> predraw st = Ok st.
Proof.
  unfold predraw. intros ->. rewrite orb_true_r. reflexivity.
Qed.

Lemma draw_disabled (st : FT) :
  enabled (o st) = false -> draw st = Ok st.
Proof. unfold draw. intros ->. reflexivity. Qed.

Lemma _direction_literal (str : value) :
  _direction str = "ASC" \/ _direction str = "DESC".
Proof.
  destruct str as [| |b|n|s]; simpl; auto.
  destruct (String.eqb_spec s "ASC") as [->|_]; simpl; auto.
  destruct (String.eqb_spec s "DESC") as [->|_]; simpl; auto.
Qed.

Lemma _direction_idempotent (str : value) :
  _direction (VString (_direction str)) = _direction str.
Proof.
  destruct (_direction_literal str) as [-> | ->]; reflexivity.
Qed.

Lemma find_index_Some {A : Type} (p : A -> bool) (l : list A) (i : nat) :
  find_index p l = Some i ->
  exists x, l !! i = Some x /\ p x = true.
Proof.
  revert i. induction l as [|y l IH]; intros i H; simpl in H; [discriminate|].
  destruct (p y) eqn:Hy.
  - injection H as <-. exists y. split; [reflexivity | exact Hy].
  - destruct (find_index p l) as [j|]; simpl in H; [|discriminate].
    injection H as <-. destruct (IH j eq_refl) as (x & Hx & Hpx).
    exists x. split; [exact Hx | exact Hpx].
Qed.

Lemma columns_get_resolved (cols : list Column) (c : colref) :
  columns_get cols c = CNull
  \/ exists h, columns_get cols c = CColumn h /\ (h < length cols)%nat.
Proof.
  destruct c as [|s|n|h]; simpl.
  - left; reflexivity.
  - destruct (find_index _ cols) as [i|] eqn:Hf; [right | left; reflexivity].
    exists i. split; [reflexivity|].
    apply find_index_Some in Hf as (x & Hx & _).
    eapply lookup_lt_Some; exact Hx.
  - destruct (n <? length cols)%nat eqn:Hn; [right | left; reflexivity].
    exists n. split; [reflexivity | apply Nat.ltb_lt; exact Hn].
  - destruct (h <? length cols)%nat eqn:Hh; [right | left; reflexivity].
    exists h. split; [reflexivity | apply Nat.ltb_lt; exact Hh].
Qed.

Lemma columns_get_idempotent (cols : list Column) (c : colref) :
  columns_get cols (columns_get cols c) = columns_get cols c.
Proof.
  destruct (columns_get_resolved cols c) as [-> | (h & -> & Hh)].
  - reflexivity.
  - simpl. apply Nat.ltb_lt in Hh. rewrite Hh. reflexivity.
Qed.

(** ** C9: the direction a click asks for *)

(** C9.  A click on the header at position [i] calls [_sort] with that
    position and a direction read off the header's classes: "ASC" for a
    header with neither mark, "DESC" for a header marked ascending (and not
    descending), "ASC" for a header marked descending.  The direction is
    always one of the two literals. *)
Theorem C9_click_toggles (st : FT) (i : nat) (c : Column) :
  columns st !! i = Some c ->
  let header := classes (col_el c) in
  _onSortClicked st i = _sort st (CIndex i) (VString (clicked_direction header)) true
  /\ (hasClass "footable-asc" header = false ->
      hasClass "footable-desc" header = false ->
      clicked_direction header = "ASC")
  /\ (hasClass "footable-asc" header = true ->
      hasClass "footable-desc" header = false ->
      clicked_direction header = "DESC")
  /\ (hasClass "footable-desc" header = true ->
      clicked_direction header = "ASC")
  /\ (clicked_direction header = "ASC" \/ clicked_direction header = "DESC").
Proof.
  intros Hc header. unfold _onSortClicked. rewrite Hc. fold header.
  unfold clicked_direction.
  destruct (hasClass "footable-asc" header), (hasClass "footable-desc" header);
    simpl; repeat split; intros; try reflexivity; try discriminate; auto.
Qed.

(** The cycle of the scenario: three clicks on the header of [price], each
    on the state the click before it left. *)
Lemma C9_click_toggles_witness :
  let st0 := price_table no_conversion true false in
  let st1 := fst (_onSortClicked st0 1) in
  let st2 := fst (_onSortClicked st1 1) in
  let st3 := fst (_onSortClicked st2 1) in
  (_onSortClicked st0 1 = _sort st0 (CIndex 1) (VString "ASC") true
   /\ direction (o st1) = Some "ASC")
  /\ (_onSortClicked st1 1 = _sort st1 (CIndex 1) (VString "DESC") true
      /\ direction (o st2) = Some "DESC")
  /\ (_onSortClicked st2 1 = _sort st2 (CIndex 1) (VString "ASC") true
      /\ direction (o st3) = Some "ASC").
Proof.
  intros st0 st1 st2 st3.
  assert (H0 : exists c, columns st0 !! 1%nat = Some c
                         /\ hasClass "footable-asc" (classes (col_el c)) = false
                         /\ hasClass "footable-desc" (classes (col_el c)) = false).
  { exists (default (blank_column EmptyString 0) (columns st0 !! 1%nat)).
    vm_compute. repeat split. }
  assert (H1 : exists c, columns st1 !! 1%nat = Some c
                         /\ hasClass "footable-asc" (classes (col_el c)) = true
                         /\ hasClass "footable-desc" (classes (col_el c)) = false).
  { exists (default (blank_column EmptyString 0) (columns st1 !! 1%nat)).
    vm_compute. repeat split. }
  assert (H2 : exists c, columns st2 !! 1%nat = Some c
                         /\ hasClass "footable-desc" (classes (col_el c)) = true).
  { exists (default (blank_column EmptyString 0) (columns st2 !! 1%nat)).
    vm_compute. repeat split. }
  destruct H0 as (c0 & Hc0 & Ha0 & Hd0).
  destruct H1 as (c1 & Hc1 & Ha1 & Hd1).
  destruct H2 as (c2 & Hc2 & Hd2).
  destruct (C9_click_toggles st0 1 c0 Hc0) as (E0 & U0 & _).
  destruct (C9_click_toggles st1 1 c1 Hc1) as (E1 & _ & A1 & _).
  destruct (C9_click_toggles st2 1 c2 Hc2) as (E2 & _ & _ & D2 & _).
  rewrite (U0 Ha0 Hd0) in E0. rewrite (A1 Ha1 Hd1) in E1.
  rewrite (D2 Hd2) in E2.
  repeat split; try assumption; vm_compute; reflexivity.
Defined.

(** ** What a call of [_sort] does *)

Lemma _sort_cancelled (st : FT) (col : colref) (dir : value) (redraw : bool) :
  snd (run_listeners (listeners st) (new_Sorter st col dir)) = true ->
  _sort st col dir redraw
  = (raise st "change.ft.sorting" [new_Sorter st col dir], Resolved).
Proof.
  intros H. unfold _sort. simpl listeners.
  destruct (run_listeners (listeners st) (new_Sorter st col dir)) as [s p].
  simpl in H. subst p. reflexivity.
Qed.

Lemma _sort_applied (st : FT) (col : colref) (dir : value) (redraw : bool)
    (s : Sorter) :
  run_listeners (listeners st) (new_Sorter st col dir) = (s, false) ->
  _sort st col dir redraw
  = match (if redraw then update (committed st col dir s)
           else Ok (committed st col dir s)) with
    | Throw e => (committed st col dir s, Raised e)
    | Ok st3 =>
        (raise (set_columns st3
                  (each_direction (column (o st3)) (direction (o st3))
                     (columns st3)))
           "changed.ft.sorting" [s], Resolved)
    end.
Proof.
  intros H. unfold _sort. simpl listeners. rewrite H. reflexivity.
Qed.

(** ** C4: the direction is normalised *)

Lemma _sort_commits (st : FT) (col : colref) (dir : value) (redraw : bool)
    (s : Sorter) :
  run_listeners (listeners st) (new_Sorter st col dir) = (s, false) ->
  o (fst (_sort st col dir redraw)) = o (committed st col dir s).
Proof.
  intros H. rewrite (_sort_applied _ _ _ _ _ H).
  destruct redraw; [|reflexivity].
  destruct (update (committed st col dir s)) as [st3|e] eqn:Hu; [|reflexivity].
  apply update_frame in Hu as (Hu & _). exact Hu.
Qed.

Lemma _sort_raises_change (st : FT) (col : colref) (dir : value) (redraw : bool) :
  exists rest,
    events (fst (_sort st col dir redraw))
    = (events st
       ++ [{| ev_name := "change.ft.sorting";
              ev_args := [new_Sorter st col dir] |}] ++ rest)%list.
Proof.
  destruct (run_listeners (listeners st) (new_Sorter st col dir)) as [s p] eqn:Hl.
  destruct p.
  - rewrite _sort_cancelled by (rewrite Hl; reflexivity).
    exists []. reflexivity.
  - rewrite (_sort_applied _ _ _ _ _ Hl).
    assert (Hev : forall st3, events st3 = events (committed st col dir s) ->
              exists rest,
                events (fst (raise (set_columns st3
                                      (each_direction (column (o st3))
                                         (direction (o st3)) (columns st3)))
                               "changed.ft.sorting" [s], Resolved))
                = (events st
                   ++ [{| ev_name := "change.ft.sorting";
                          ev_args := [new_Sorter st col dir] |}] ++ rest)%list).
    { intros st3 H3. eexists. cbn [fst events raise set_events set_columns].
      rewrite H3. cbn [events committed set_o raise set_events].
      rewrite <- app_assoc. reflexivity. }
    destruct redraw.
    + destruct (update (committed st col dir s)) as [st3|e] eqn:Hu.
      * apply Hev. apply update_frame in Hu as (_ & Hu & _). exact Hu.
      * exists []. reflexivity.
    + apply Hev. reflexivity.
Qed.

(** C4.  A direction that is neither the string "ASC" nor the string "DESC"
    is normalised to "ASC" by [_direction], and the two literals are kept.
    A call of [sort] with such a direction builds its sorter with the
    direction "ASC" and raises ['change.ft.sorting'] with it; when no
    listener cancels, the direction it commits is the direction of the
    sorter as the listeners left it, normalised again, so "ASC" when they
    left it alone or wrote another invalid one.  The call is the call with
    the direction omitted ([undefined]) and the call with "ASC": the same
    resulting state, rows included, and the same outcome. *)
Theorem C4_direction_normalized (st : FT) (col : colref) (dir : value) :
  dir <> VString "ASC" ->
  dir <> VString "DESC" ->
  let st' := fst (sort st col dir) in
  let asked := {| s_column := columns_get (columns st) col;
                  s_direction := VString "ASC" |} in
  _direction dir = "ASC"
  /\ _direction VUndefined = "ASC"
  /\ _direction (VString "ASC") = "ASC"
  /\ _direction (VString "DESC") = "DESC"
  /\ new_Sorter st col dir = asked
  /\ (exists rest,
        events st'
        = (events st
           ++ [{| ev_name := "change.ft.sorting"; ev_args := [asked] |}]
           ++ rest)%list)
  /\ (forall s,
        run_listeners (listeners st) asked = (s, false) ->
        direction (o st') = Some (_direction (s_direction s))
        /\ column (o st') = columns_get (columns st) (s_column s))
  /\ (run_listeners (listeners st) asked = (asked, false) ->
      direction (o st') = Some "ASC"
      /\ column (o st') = columns_get (columns st) col)
  /\ sort st col dir = sort st col VUndefined
  /\ sort st col dir = sort st col (VString "ASC").
Proof.
  intros Hasc Hdesc st' asked.
  assert (Hn : _direction dir = "ASC").
  { destruct dir as [| |b|n|s]; simpl; try reflexivity.
    destruct (String.eqb_spec s "ASC") as [->|_]; [congruence|].
    destruct (String.eqb_spec s "DESC") as [->|_]; [congruence|].
    reflexivity. }
  assert (Hs : new_Sorter st col dir = asked)
    by (unfold new_Sorter; rewrite Hn; reflexivity).
  assert (Hcommit : forall s,
             run_listeners (listeners st) asked = (s, false) ->
             direction (o st') = Some (_direction (s_direction s))
             /\ column (o st') = columns_get (columns st) (s_column s)).
  { intros s Hl. rewrite <- Hs in Hl. subst st'. unfold sort.
    rewrite (_sort_commits _ _ _ _ _ Hl). split; reflexivity. }
  split; [exact Hn|]. split; [reflexivity|]. split; [reflexivity|].
  split; [reflexivity|]. split; [exact Hs|].
  split.
  { subst st'. unfold sort. rewrite <- Hs. apply _sort_raises_change. }
  split; [exact Hcommit|].
  split.
  { intros Hl. destruct (Hcommit asked Hl) as (Hd & Hc). split.
    - rewrite Hd. reflexivity.
    - rewrite Hc. apply columns_get_idempotent. }
  split; unfold sort, _sort, new_Sorter; rewrite Hn; reflexivity.
Qed.

Lemma C4_direction_normalized_witness :
  let st := names_table no_conversion in
  let st' := fst (sort st (CName "v") (VString "sideways")) in
  let stl := on_change st misdirecting in
  _direction (VString "sideways") = "ASC"
  /\ (exists rest,
        events st'
        = (events st
           ++ [{| ev_name := "change.ft.sorting";
                  ev_args := [{| s_column := CColumn 0;
                                 s_direction := VString "ASC" |}] |}]
           ++ rest)%list)
  /\ direction (o st') = Some "ASC"
  /\ column (o st') = CColumn 0
  /\ direction (o (fst (sort stl (CName "v") (VString "sideways")))) = Some "ASC"
  /\ sort st (CName "v") (VString "sideways") = sort st (CName "v") VUndefined
  /\ map cells (rows st')
     = [[VString "alice"]; [VString "Bob"]; [VString "Carl"]].
Proof.
  intros st st' stl.
  destruct (C4_direction_normalized st (CName "v") (VString "sideways"))
    as (H1 & _ & _ & _ & _ & Hev & _ & Hc & H2 & _);
    [discriminate | discriminate |].
  destruct (C4_direction_normalized stl (CName "v") (VString "sideways"))
    as (_ & _ & _ & _ & _ & _ & Hl & _); [discriminate | discriminate |].
  destruct Hc as (Hd & Hcol); [vm_compute; reflexivity|].
  destruct (Hl {| s_column := CColumn 0; s_direction := VString "sideways" |})
    as (Hdl & _); [vm_compute; reflexivity|].
  split; [exact H1|]. split; [exact Hev|]. split; [exact Hd|].
  split; [exact Hcol|]. split; [exact Hdl|]. split; [exact H2|].
  vm_compute. reflexivity.
Defined.

(** ** C2: a cancelled sort *)

(** C2.  When a listener of the cancellable ['change.ft.sorting'] event
    prevents the default, [_sort] stops there: the sorting options (column
    and direction), every column (its direction field with it), the rows and
    the requests are what they were, the only event raised is the
    cancellable one, so ['changed.ft.sorting'] is not raised, and the call
    ends with a resolved promise. *)
Theorem C2_cancelled_sort_changes_nothing
    (st : FT) (col : colref) (dir : value) (redraw : bool) :
  snd (run_listeners (listeners st) (new_Sorter st col dir)) = true ->
  let st' := fst (_sort st col dir redraw) in
  snd (_sort st col dir redraw) = Resolved
  /\ o st' = o st
  /\ columns st' = columns st
  /\ rows st' = rows st
  /\ requests st' = requests st
  /\ events st'
     = (events st ++ [{| ev_name := "change.ft.sorting";
                         ev_args := [new_Sorter st col dir] |}])%list
  /\ Forall (fun e => ev_name e <> "changed.ft.sorting")
       (drop (length (events st)) (events st')).
Proof.
  intros H st'. subst st'. rewrite (_sort_cancelled _ _ _ _ H). simpl.
  repeat split.
  rewrite drop_app_length. constructor; [discriminate | constructor].
Qed.

Lemma C2_cancelled_sort_changes_nothing_witness :
  let st := on_change (price_table no_conversion true false) cancelling in
  let st' := fst (sort st (CName "price") (VString "DESC")) in
  snd (sort st (CName "price") (VString "DESC")) = Resolved
  /\ o st' = o st /\ columns st' = columns st /\ rows st' = rows st.
Proof.
  intros st st'.
  assert (H : snd (run_listeners (listeners st)
                     (new_Sorter st (CName "price") (VString "DESC"))) = true)
    by (vm_compute; reflexivity).
  destruct (C2_cancelled_sort_changes_nothing st (CName "price")
              (VString "DESC") true H) as (H1 & H2 & H3 & H4 & _).
  repeat split; assumption.
Defined.

(** ** C7: what is committed *)

(** C7, as the code has it.  When no listener cancels, the column and the
    direction [_sort] commits are read from the sorter object as the
    listeners left it: the column it names, looked up again, and its
    direction, normalised again.  They are the column and the direction
    resolved from the caller's arguments when the listeners left the sorter
    as it was. *)
Theorem C7_commit_reads_the_sorter
    (st : FT) (col : colref) (dir : value) (redraw : bool) (s : Sorter) :
  run_listeners (listeners st) (new_Sorter st col dir) = (s, false) ->
  let st' := fst (_sort st col dir redraw) in
  column (o st') = columns_get (columns st) (s_column s)
  /\ direction (o st') = Some (_direction (s_direction s))
  /\ (s = new_Sorter st col dir ->
      column (o st') = columns_get (columns st) col
      /\ direction (o st') = Some (_direction dir)).
Proof.
  intros H st'.
  assert (Ho : o st' = o (committed st col dir s)).
  { subst st'. rewrite (_sort_applied _ _ _ _ _ H).
    destruct redraw.
    - destruct (update (committed st col dir s)) as [st3|e] eqn:Hu.
      + apply update_frame in Hu as (Hu & _). simpl. exact Hu.
      + reflexivity.
    - reflexivity. }
  rewrite Ho. simpl.
  split; [reflexivity | split; [reflexivity |]].
  intros ->. simpl. split.
  - apply columns_get_idempotent.
  - f_equal. apply _direction_idempotent.
Qed.

Lemma C7_commit_reads_the_sorter_witness :
  let st := price_table no_conversion true false in
  let st' := fst (sort st (CName "price") (VString "DESC")) in
  column (o st') = CColumn 1 /\ direction (o st') = Some "DESC".
Proof.
  intros st st'.
  assert (H : run_listeners (listeners st)
                (new_Sorter st (CName "price") (VString "DESC"))
              = (new_Sorter st (CName "price") (VString "DESC"), false))
    by (vm_compute; reflexivity).
  destruct (C7_commit_reads_the_sorter st (CName "price") (VString "DESC")
              true _ H) as (_ & _ & H3).
  destruct (H3 eq_refl) as (Hc & Hd).
  split; [etransitivity; [exact Hc |] | etransitivity; [exact Hd |]];
    vm_compute; reflexivity.
Defined.

(** C7, as the spec has it, fails: a listener that writes another column and
    another direction into the sorter, and does not cancel, has them
    committed in place of what the caller asked for. *)
Lemma C7_listener_substitutes :
  let st := on_change (price_table no_conversion true false) redirecting in
  let asked := new_Sorter st (CName "price") (VString "ASC") in
  let st' := fst (sort st (CName "price") (VString "ASC")) in
  snd (run_listeners (listeners st) asked) = false
  /\ snd (sort st (CName "price") (VString "ASC")) = Resolved
  /\ s_column asked = CColumn 1
  /\ s_direction asked = VString "ASC"
  /\ column (o st') = CColumn 0
  /\ direction (o st') = Some "DESC"
  /\ ~ (column (o st') = s_column asked
        /\ direction (o st') = Some (_direction (VString "ASC"))).
Proof.
  intros st asked st'.
  assert (Hc : column (o st') = CColumn 0) by (vm_compute; reflexivity).
  repeat split; try (vm_compute; reflexivity).
  intros [E _]. rewrite Hc in E. vm_compute in E. discriminate E.
Qed.

(** ** Counting the columns that have a direction *)

Lemma filter_all_false {A : Type} (p : A -> bool) (l : list A) :
  (forall i x, l !! i = Some x -> p x = false) -> List.filter p l = [].
Proof.
  induction l as [|y l IH]; intros H; simpl; [reflexivity|].
  rewrite (H 0%nat y eq_refl). apply IH. intros i x Hx. exact (H (S i) x Hx).
Qed.

Lemma filter_one_at_most {A : Type} (p : A -> bool) (l : list A) (h : nat) :
  (forall i x, l !! i = Some x -> i <> h -> p x = false) ->
  (length (List.filter p l) <= 1)%nat.
Proof.
  revert h. induction l as [|y l IH]; intros h H; simpl; [lia|].
  destruct h as [|h].
  - rewrite (filter_all_false p l).
    + destruct (p y); simpl; lia.
    + intros i x Hx. apply (H (S i) x Hx). discriminate.
  - rewrite (H 0%nat y eq_refl); [|discriminate].
    apply (IH h). intros i x Hx Hi. apply (H (S i) x Hx). congruence.
Qed.

Lemma filter_exactly_one {A : Type} (p : A -> bool) (l : list A) (h : nat)
    (y : A) :
  l !! h = Some y -> p y = true ->
  (forall i x, l !! i = Some x -> i <> h -> p x = false) ->
  length (List.filter p l) = 1%nat.
Proof.
  revert h. induction l as [|z l IH]; intros h Hy Hp H; [discriminate|].
  destruct h as [|h]; simpl in *.
  - injection Hy as ->. rewrite Hp. simpl.
    rewrite (filter_all_false p l); [reflexivity|].
    intros i x Hx. apply (H (S i) x Hx). discriminate.
  - rewrite (H 0%nat z eq_refl); [|discriminate].
    apply (IH h Hy Hp). intros i x Hx Hi. apply (H (S i) x Hx). congruence.
Qed.

Lemma each_direction_lookup (c : colref) (d : option string)
    (cols : list Column) (i : nat) (x : Column) :
  each_direction c d cols !! i = Some x ->
  col_direction x = if is_column c i then d else None.
Proof.
  unfold each_direction. rewrite list_lookup_imap.
  destruct (cols !! i) as [y|]; simpl; [|discriminate].
  intros H. injection H as <-. destruct (is_column c i); reflexivity.
Qed.

Lemma each_direction_length (c : colref) (d : option string)
    (cols : list Column) :
  length (each_direction c d cols) = length cols.
Proof. apply length_imap. Qed.

Lemma each_direction_at_most_one (c : colref) (d : option string)
    (cols : list Column) :
  (directed (each_direction c d cols) <= 1)%nat.
Proof.
  unfold directed.
  apply (filter_one_at_most _ _ (match c with CColumn h => h | _ => 0%nat end)).
  intros i x Hx Hi. apply each_direction_lookup in Hx.
  unfold has_direction. rewrite Hx.
  destruct c as [| | |h]; simpl; try reflexivity.
  destruct (Nat.eqb_spec i h); [contradiction | reflexivity].
Qed.

Lemma each_direction_none (d : option string) (cols : list Column) :
  directed (each_direction CNull d cols) = 0%nat.
Proof.
  unfold directed. rewrite filter_all_false; [reflexivity|].
  intros i x Hx. apply each_direction_lookup in Hx.
  unfold has_direction. rewrite Hx. reflexivity.
Qed.

Lemma each_direction_one (h : nat) (d : string) (cols : list Column) :
  (h < length cols)%nat ->
  directed (each_direction (CColumn h) (Some d) cols) = 1%nat.
Proof.
  intros Hh. unfold directed.
  destruct (lookup_lt_is_Some_2 (each_direction (CColumn h) (Some d) cols) h)
    as [y Hy]; [rewrite each_direction_length; exact Hh|].
  apply (filter_exactly_one _ _ h y Hy).
  - apply each_direction_lookup in Hy. unfold has_direction. rewrite Hy.
    simpl. rewrite Nat.eqb_refl. reflexivity.
  - intros i x Hx Hi. apply each_direction_lookup in Hx.
    unfold has_direction. rewrite Hx. simpl.
    destruct (Nat.eqb_spec i h); [contradiction | reflexivity].
Qed.

Lemma directed_map (f : Column -> Column) (cols : list Column) :
  (forall c, col_direction (f c) = col_direction c) ->
  directed (map f cols) = directed cols.
Proof.
  intros Hf. unfold directed.
  induction cols as [|c cols IH]; simpl; [reflexivity|].
  assert (E : has_direction (f c) = has_direction c)
    by (unfold has_direction; rewrite Hf; reflexivity).
  rewrite E. destruct (has_direction c); simpl; rewrite IH; reflexivity.
Qed.

(** ** C3: one sorted column at most *)

Lemma _generate_columns (st : FT) :
  exists c d,
    columns (_generate st)
    = map (fun col =>
             if col_sortable col
             then set_el col
                    {| classes := classes (col_el col);
                       spans := (spans (col_el col)
                                 ++ [["fooicon"; "fooicon-sort"]])%list |}
             else col)
          (each_direction c d (columns st)).
Proof. eexists _, _. reflexivity. Qed.

(** C3, as the code has it.  After a sort that was not cancelled and whose
    promise is resolved, every column's direction is the committed direction
    if it is the committed column and [null] otherwise; so exactly one
    column has a direction when the reference resolved to a column, none
    when it resolved to no column, and never more than one.  The initial
    resolution of [_generate] also leaves one such column at most. *)
Theorem C3_one_direction_at_most
    (st : FT) (col : colref) (dir : value) (redraw : bool) (s : Sorter) :
  run_listeners (listeners st) (new_Sorter st col dir) = (s, false) ->
  snd (_sort st col dir redraw) = Resolved ->
  let st' := fst (_sort st col dir redraw) in
  (forall i c, columns st' !! i = Some c ->
     col_direction c
     = if is_column (column (o st')) i then direction (o st') else None)
  /\ (directed (columns st') <= 1)%nat
  /\ (forall h, column (o st') = CColumn h -> directed (columns st') = 1%nat)
  /\ (column (o st') = CNull -> directed (columns st') = 0%nat)
  /\ (column (o st') = CNull \/ exists h, column (o st') = CColumn h)
  /\ (directed (columns (_generate st)) <= 1)%nat.
Proof.
  intros Hl Hr st'.
  assert (Hs : _sort st col dir redraw = (st', Resolved))
    by (rewrite <- Hr; apply surjective_pairing).
  clearbody st'. clear Hr.
  rewrite (_sort_applied _ _ _ _ _ Hl) in Hs.
  set (st2 := committed st col dir s) in *.
  assert (Hg : (directed (columns (_generate st)) <= 1)%nat).
  { destruct (_generate_columns st) as (c & d & ->).
    rewrite directed_map.
    - apply each_direction_at_most_one.
    - intros x. destruct (col_sortable x); reflexivity. }
  revert Hg. generalize (directed (columns (_generate st))). intros g Hg.
  assert (Hst3 : exists st3,
             o st3 = o st2 /\ length (columns st3) = length (columns st)
             /\ st' = raise (set_columns st3
                               (each_direction (column (o st3))
                                  (direction (o st3)) (columns st3)))
                        "changed.ft.sorting" [s]).
  { destruct redraw.
    - destruct (update st2) as [st3|e] eqn:Hu; [|discriminate].
      injection Hs as <-. exists st3.
      apply update_frame in Hu as (Ho & _ & _ & Hlen).
      repeat split; assumption.
    - injection Hs as <-. exists st2. repeat split. }
  destruct Hst3 as (st3 & Ho & Hlen & ->). simpl. rewrite Ho. simpl.
  split; [|split; [|split; [|split; [|split]]]].
  - intros i c Hc. apply each_direction_lookup in Hc. exact Hc.
  - apply each_direction_at_most_one.
  - intros h Hh. rewrite Hh. apply each_direction_one.
    rewrite Hlen.
    destruct (columns_get_resolved (columns st) (s_column s))
      as [E | (h' & E & Hlt)]; rewrite E in Hh; [discriminate|].
    injection Hh as <-. exact Hlt.
  - intros ->. apply each_direction_none.
  - destruct (columns_get_resolved (columns st) (s_column s))
      as [E | (h' & E & _)]; rewrite E; eauto.
  - exact Hg.
Qed.

Lemma C3_one_direction_at_most_witness :
  let st := price_table no_conversion true false in
  let st' := fst (sort st (CName "price") (VString "DESC")) in
  directed (columns st') = 1%nat.
Proof.
  intros st st'.
  assert (Hl : run_listeners (listeners st)
                 (new_Sorter st (CName "price") (VString "DESC"))
               = (new_Sorter st (CName "price") (VString "DESC"), false))
    by (vm_compute; reflexivity).
  assert (Hs : snd (_sort st (CName "price") (VString "DESC") true) = Resolved)
    by (vm_compute; reflexivity).
  destruct (C3_one_direction_at_most st (CName "price") (VString "DESC")
              true _ Hl Hs) as (_ & _ & H1 & _).
  apply (H1 1%nat). vm_compute. reflexivity.
Defined.

(** C3, as the spec has it, fails.  A sort by a reference that resolves to
    no column is not cancelled and its promise is resolved, and no column
    has a direction after it; and two columns constructed with a declared
    direction both have one while sorting is disabled. *)
Lemma C3_no_column_has_a_direction :
  let st := price_table no_conversion true false in
  let st' := fst (sort st (CName "missing") (VString "ASC")) in
  snd (run_listeners (listeners st)
         (new_Sorter st (CName "missing") (VString "ASC"))) = false
  /\ snd (sort st (CName "missing") (VString "ASC")) = Resolved
  /\ directed (columns st') = 0%nat
  /\ directed (columns st') <> 1%nat
  /\ directed (columns (declared_table no_conversion)) = 2%nat.
Proof.
  intros st st'.
  assert (H0 : directed (columns st') = 0%nat) by (vm_compute; reflexivity).
  repeat split; try (vm_compute; reflexivity).
  rewrite H0. discriminate.
Qed.

(** ** C5: a reference to no column *)

Lemma preajax_null_column (st : FT) (data : RequestData) :
  enabled (o st) = true -> column (o st) = CNull ->
  preajax st data = Throw TypeError.
Proof. unfold preajax. intros -> ->. reflexivity. Qed.

Lemma predraw_null_column (st : FT) :
  column (o st) = CNull -> predraw st = Ok st.
Proof.
  unfold predraw. intros ->. simpl.
  destruct (negb (enabled (o st)) || ajaxEnabled st); reflexivity.
Qed.

Lemma draw_null_column (st : FT) :
  column (o st) = CNull -> draw st = Ok st.
Proof.
  unfold draw. intros ->. simpl.
  destruct (negb (enabled (o st))); reflexivity.
Qed.

(** C5, on the local path and on the remote one.  On a table with local
    data, a sort by a name no column has commits [null] as the column,
    leaves the rows in place and ends with a resolved promise: [predraw] and
    [draw] test the column.  On the same table with remote data, [preajax]
    reads the name of the [null] column without a test, and the call ends
    with a [TypeError]. *)
Theorem C5_preajax_reads_the_null_column :
  let loc := price_table no_conversion true false in
  let rem := price_table no_conversion true true in
  (columns_get (columns loc) (CName "missing") = CNull
   /\ column (o (fst (sort loc (CName "missing") (VString "ASC")))) = CNull
   /\ rows (fst (sort loc (CName "missing") (VString "ASC"))) = rows loc
   /\ snd (sort loc (CName "missing") (VString "ASC")) = Resolved)
  /\ (columns_get (columns rem) (CName "missing") = CNull
      /\ column (o (fst (sort rem (CName "missing") (VString "ASC")))) = CNull
      /\ preajax (fst (sort rem (CName "missing") (VString "ASC")))
           new_RequestData = Throw TypeError
      /\ snd (sort rem (CName "missing") (VString "ASC")) = Raised TypeError).
Proof.
  intros loc rem. repeat split; vm_compute; reflexivity.
Qed.

(** ** C6: remote data *)

Lemma columns_get_name (cols : list Column) (name : string) (h : nat) :
  columns_get cols (CName name) = CColumn h ->
  exists c, cols !! h = Some c /\ col_name c = name.
Proof.
  simpl. destruct (find_index _ cols) as [i|] eqn:Hf; [|discriminate].
  intros H. injection H as <-.
  apply find_index_Some in Hf as (c & Hc & Hn).
  exists c. split; [exact Hc | apply String.eqb_eq; exact Hn].
Qed.

Lemma imap_set_el (f : nat -> Column -> Element) (cols : list Column) :
  Forall2 (fun c c' => c' = set_el c (col_el c')) cols
    (imap (fun i c => set_el c (f i c)) cols).
Proof.
  revert f. induction cols as [|c cols IH]; intros f; simpl.
  - constructor.
  - constructor; [reflexivity | apply (IH (fun i => f (S i)))].
Qed.

Lemma Forall2_same_but_el (cols : list Column) :
  Forall2 (fun c c' => c' = set_el c (col_el c')) cols cols.
Proof.
  induction cols as [|c cols IH]; constructor; [destruct c; reflexivity | exact IH].
Qed.

(** [draw] writes to the header cells only. *)
Lemma draw_columns (st st' : FT) :
  draw st = Ok st' ->
  Forall2 (fun c c' => c' = set_el c (col_el c')) (columns st) (columns st').
Proof.
  unfold draw. intros H.
  destruct (negb (enabled (o st)) || falsy_column (column (o st))
            || falsy_direction (direction (o st))).
  - injection H as <-. apply Forall2_same_but_el.
  - destruct (column (o st)); try discriminate.
    destruct (h <? length (columns st))%nat; try discriminate.
    injection H as <-. cbn [columns set_columns]. apply imap_set_el.
Qed.

Lemma draw_resolved (st : FT) (h : nat) :
  column (o st) = CColumn h -> (h < length (columns st))%nat ->
  exists st', draw st = Ok st'.
Proof.
  intros Hc Hh. unfold draw. rewrite Hc.
  apply Nat.ltb_lt in Hh. rewrite Hh.
  destruct (negb (enabled (o st)) || falsy_column (CColumn h)
            || falsy_direction (direction (o st))); eauto.
Qed.

Lemma update_remote (st : FT) (data : RequestData) :
  ajaxEnabled st = true ->
  preajax st new_RequestData = Ok data ->
  update st = draw (set_requests st (requests st ++ [data])).
Proof.
  intros Ha Hp. unfold update. rewrite Ha, Hp.
  cbn [bind]. rewrite predraw_remote by exact Ha. reflexivity.
Qed.

Lemma each_direction_name (c : colref) (d : option string)
    (cols : list Column) (i : nat) (x : Column) :
  cols !! i = Some x ->
  exists y, each_direction c d cols !! i = Some y /\ col_name y = col_name x.
Proof.
  intros Hx. unfold each_direction. rewrite list_lookup_imap, Hx.
  cbn [fmap option_fmap option_map].
  destruct (is_column c i); eexists; split; reflexivity.
Qed.

(** C6, as the code has it.  With sorting enabled on remote data, a sort by the name of an
    existing column and one of the two directions, which no listener cancels
    or rewrites, leaves the rows as they are, and the request the refresh
    sends carries the name as [sortColumn] and the direction as
    [sortDirection]; so does every request [preajax] fills afterwards. *)
Theorem C6_remote_sort_fills_the_request
    (st : FT) (name dir : string) (h : nat) :
  enabled (o st) = true ->
  ajaxEnabled st = true ->
  columns_get (columns st) (CName name) = CColumn h ->
  dir = "ASC" \/ dir = "DESC" ->
  run_listeners (listeners st) (new_Sorter st (CName name) (VString dir))
  = (new_Sorter st (CName name) (VString dir), false) ->
  let st' := fst (sort st (CName name) (VString dir)) in
  snd (sort st (CName name) (VString dir)) = Resolved
  /\ rows st' = rows st
  /\ requests st'
     = (requests st
        ++ [{| sortColumn := VString name; sortDirection := Some dir |}])%list
  /\ (forall data, preajax st' data
                   = Ok {| sortColumn := VString name;
                           sortDirection := Some dir |}).
Proof.
  intros He Ha Hc Hd Hl st'. subst st'. unfold sort.
  rewrite (_sort_applied _ _ _ _ _ Hl).
  destruct (columns_get_name _ _ _ Hc) as (c & Hlook & Hname).
  assert (Hlt : (h < length (columns st))%nat)
    by (eapply lookup_lt_Some; exact Hlook).
  assert (Hdir : _direction (VString dir) = dir)
    by (destruct Hd as [-> | ->]; reflexivity).
  assert (Hcm : committed st (CName name) (VString dir)
                  (new_Sorter st (CName name) (VString dir))
                = set_o (raise st "change.ft.sorting"
                           [new_Sorter st (CName name) (VString dir)])
                    {| enabled := true; column := CColumn h;
                       direction := Some dir |}).
  { unfold committed. f_equal. unfold new_Sorter. cbn [s_column s_direction].
    rewrite columns_get_idempotent, _direction_idempotent, Hc, Hdir, He.
    reflexivity. }
  rewrite Hcm. clear Hcm.
  generalize (new_Sorter st (CName name) (VString dir)). intros ev.
  set (st2 := set_o (raise st "change.ft.sorting" [ev]) _).
  assert (Hp : preajax st2 new_RequestData
               = Ok {| sortColumn := VString name; sortDirection := Some dir |}).
  { unfold preajax, st2. cbn. rewrite Hlook, Hname. reflexivity. }
  rewrite (update_remote st2 _ Ha Hp).
  destruct (draw_resolved
              (set_requests st2
                 (requests st2
                  ++ [{| sortColumn := VString name; sortDirection := Some dir |}]))
              h eq_refl Hlt)
    as (st3 & Hdraw).
  rewrite Hdraw.
  pose proof (draw_columns _ _ Hdraw) as Hcols.
  apply draw_frame in Hdraw as (Ho & _ & Hrows & _ & Hreq & _ & _).
  cbn [fst snd rows raise set_events set_columns requests].
  rewrite Hrows, Hreq. split; [reflexivity|]. split; [reflexivity|].
  split; [reflexivity|].
  intros data. unfold preajax.
  cbn [o enabled column direction raise set_events set_columns columns].
  rewrite Ho. subst st2.
  cbn [o set_requests set_o raise set_events enabled column direction negb].
  cbn [columns set_requests set_o raise set_events] in Hcols.
  destruct (Forall2_lookup_l _ _ _ _ _ Hcols Hlook) as (c3 & Hc3 & Hel).
  destruct (each_direction_name (CColumn h) (Some dir) _ _ _ Hc3)
    as (y & Hy & Hny).
  unfold column_name. rewrite Hy. cbn [bind].
  rewrite Hny, Hel. cbn [col_name set_el]. rewrite Hname. reflexivity.
Qed.

Lemma C6_remote_sort_fills_the_request_witness :
  let st := price_table no_conversion true true in
  let st' := fst (sort st (CName "price") (VString "DESC")) in
  rows st' = rows st
  /\ requests st'
     = (requests st
        ++ [{| sortColumn := VString "price"; sortDirection := Some "DESC" |}])%list.
Proof.
  intros st st'.
  assert (He : enabled (o st) = true) by reflexivity.
  assert (Ha : ajaxEnabled st = true) by reflexivity.
  assert (Hc : columns_get (columns st) (CName "price") = CColumn 1)
    by (vm_compute; reflexivity).
  assert (Hl : run_listeners (listeners st)
                 (new_Sorter st (CName "price") (VString "DESC"))
               = (new_Sorter st (CName "price") (VString "DESC"), false))
    by (vm_compute; reflexivity).
  destruct (C6_remote_sort_fills_the_request st "price" "DESC" 1 He Ha Hc
              (or_intror eq_refl) Hl) as (_ & H1 & H2 & _).
  split; [exact H1 | exact H2].
Defined.

(** C6, as the spec has it, fails: the claim asks for remote data only.
    With sorting disabled, [sort] by the name of an existing column commits
    the column and the direction and leaves the rows, but [preajax] returns
    at its [enabled] test and the request of the refresh carries [null] in
    both fields.  And with sorting enabled, a listener that cancels leaves
    no request at all. *)
Lemma C6_disabled_request_is_empty :
  let st := price_table no_conversion false true in
  let st' := fst (sort st (CName "price") (VString "DESC")) in
  let stc := on_change (price_table no_conversion true true) cancelling in
  ajaxEnabled st = true
  /\ columns_get (columns st) (CName "price") = CColumn 1
  /\ snd (sort st (CName "price") (VString "DESC")) = Resolved
  /\ column (o st') = CColumn 1
  /\ direction (o st') = Some "DESC"
  /\ map cells (rows st') = map cells (rows st)
  /\ requests st = []
  /\ requests st' = [{| sortColumn := VNull; sortDirection := None |}]
  /\ requests st'
     <> (requests st
         ++ [{| sortColumn := VString "price"; sortDirection := Some "DESC" |}])%list
  /\ (enabled (o stc) = true /\ ajaxEnabled stc = true
      /\ snd (sort stc (CName "price") (VString "DESC")) = Resolved
      /\ requests (fst (sort stc (CName "price") (VString "DESC"))) = []).
Proof.
  intros st st' stc.
  assert (Hr : requests st' = [{| sortColumn := VNull; sortDirection := None |}])
    by (vm_compute; reflexivity).
  split; [reflexivity|]. split; [vm_compute; reflexivity|].
  split; [vm_compute; reflexivity|]. split; [vm_compute; reflexivity|].
  split; [vm_compute; reflexivity|]. split; [vm_compute; reflexivity|].
  split; [reflexivity|]. split; [exact Hr|].
  split; [rewrite Hr; discriminate|].
  split; [reflexivity|]. split; [reflexivity|].
  split; vm_compute; reflexivity.
Qed.

(** ** C10: sorting disabled *)

Lemma update_disabled (st : FT) :
  enabled (o st) = false ->
  update st
  = Ok (if ajaxEnabled st
        then set_requests st (requests st ++ [new_RequestData])
        else st).
Proof.
  intros He. unfold update, preajax. rewrite He. cbn [negb bind].
  destruct (ajaxEnabled st).
  - rewrite predraw_disabled by exact He. cbn [bind].
    apply draw_disabled. exact He.
  - rewrite predraw_disabled by exact He. cbn [bind].
    apply draw_disabled. exact He.
Qed.

(** C10.  With [enabled] false the hooks [init], [reinit], [destroy],
    [preajax], [predraw] and [draw] do nothing.  [sort] has no such test: it
    raises ['change.ft.sorting'], and when no listener cancels it commits
    the column and the direction, rewrites the direction of every column,
    raises ['changed.ft.sorting'] and ends with a resolved promise, the rows
    being where they were. *)
Theorem C10_disabled_sort_still_commits
    (st : FT) (col : colref) (dir : value) (s : Sorter) :
  enabled (o st) = false ->
  run_listeners (listeners st) (new_Sorter st col dir) = (s, false) ->
  let st' := fst (sort st col dir) in
  (init st = st /\ reinit st = st /\ destroy st = st
   /\ (forall data, preajax st data = Ok data)
   /\ predraw st = Ok st /\ draw st = Ok st)
  /\ snd (sort st col dir) = Resolved
  /\ o st' = {| enabled := false;
                column := columns_get (columns st) (s_column s);
                direction := Some (_direction (s_direction s)) |}
  /\ columns st'
     = each_direction (columns_get (columns st) (s_column s))
         (Some (_direction (s_direction s))) (columns st)
  /\ rows st' = rows st
  /\ events st'
     = (events st
        ++ [{| ev_name := "change.ft.sorting";
               ev_args := [new_Sorter st col dir] |};
            {| ev_name := "changed.ft.sorting"; ev_args := [s] |}])%list.
Proof.
  intros He Hl st'. subst st'. split.
  - unfold init, reinit, destroy, preajax. rewrite He. cbn [negb].
    rewrite He. cbn [negb].
    repeat split; [apply predraw_disabled | apply draw_disabled]; exact He.
  - unfold sort. rewrite (_sort_applied _ _ _ _ _ Hl).
    rewrite update_disabled by exact He.
    unfold committed. rewrite He.
    destruct (ajaxEnabled _); cbn; rewrite <- app_assoc; repeat split.
Qed.

Lemma C10_disabled_sort_still_commits_witness :
  let st := price_table no_conversion false false in
  let st' := fst (sort st (CName "price") (VString "DESC")) in
  predraw st = Ok st
  /\ snd (sort st (CName "price") (VString "DESC")) = Resolved
  /\ o st' = {| enabled := false; column := CColumn 1; direction := Some "DESC" |}
  /\ map col_direction (columns st') = [None; Some "DESC"]
  /\ rows st' = rows st.
Proof.
  intros st st'.
  assert (He : enabled (o st) = false) by reflexivity.
  assert (Hl : run_listeners (listeners st)
                 (new_Sorter st (CName "price") (VString "DESC"))
               = (new_Sorter st (CName "price") (VString "DESC"), false))
    by (vm_compute; reflexivity).
  destruct (C10_disabled_sort_still_commits st (CName "price") (VString "DESC")
              _ He Hl) as ((_ & _ & _ & _ & Hp & _) & Hr & Ho & Hc & Hrows & _).
  split; [exact Hp|]. split; [exact Hr|].
  split; [etransitivity; [exact Ho | vm_compute; reflexivity]|].
  split; [|exact Hrows].
  change (map col_direction (columns (fst (sort st (CName "price") (VString "DESC"))))
          = [None; Some "DESC"]).
  rewrite Hc. vm_compute. reflexivity.
Defined.

(** ** The sort of the engine, on a comparator that orders *)

Section ArraySort.

Context {A : Type}.
Variable comparefn : A -> A -> result jsnum.

(** The elements the comparator orders: on two of them it returns, and
    when it says greater it does not say so with the operands swapped. *)
Variable P : A -> Prop.
Hypothesis comparefn_total :
  forall x y, P x -> P y ->
    exists n, comparefn x y = Ok n
              /\ (0 < sort_order n -> before comparefn y x).

Lemma sort_insert_sorted (x : A) (l : list A) :
  P x -> Forall P l -> Sorted (before comparefn) l ->
  exists l', sort_insert comparefn x l = Ok l'
             /\ l' ≡ₚ x :: l
             /\ Sorted (before comparefn) l'
             /\ (forall z, before comparefn z x ->
                           HdRel (before comparefn) z l ->
                           HdRel (before comparefn) z l').
Proof using comparefn_total.
  intros Px. induction l as [|y l IH]; intros Hl Hs.
  - exists [x]. simpl. repeat split; auto.
  - apply Forall_cons in Hl as [Py Hl].
    simpl. destruct (comparefn_total x y Px Py) as (n & Hn & Hgt).
    rewrite Hn. cbn [bind].
    destruct (Z.leb_spec (sort_order n) 0) as [Hle|Hlt].
    + exists (x :: y :: l). repeat split; auto.
      constructor; [exact Hs|]. constructor. exists n. auto.
    + apply Sorted_inv in Hs as [Hs Hhd].
      destruct (IH Hl Hs) as (l' & Hi & Hperm & Hs' & Hhd').
      rewrite Hi. cbn [bind]. exists (y :: l'). repeat split.
      * rewrite Hperm. apply perm_swap.
      * constructor; [exact Hs'|]. apply Hhd'; auto.
      * intros z _ Hz. apply HdRel_inv in Hz. constructor. exact Hz.
Qed.

Lemma array_sort_sorted (l : list A) :
  Forall P l ->
  exists l', array_sort comparefn l = Ok l'
             /\ l' ≡ₚ l
             /\ Sorted (before comparefn) l'.
Proof using comparefn_total.
  induction l as [|x l IH]; intros Hl.
  - exists []. simpl. repeat split; auto.
  - apply Forall_cons in Hl as [Px Hl].
    destruct (IH Hl) as (s & Hs & Hperm & Hsorted).
    simpl. rewrite Hs. cbn [bind].
    assert (HPs : Forall P s) by (rewrite Hperm; exact Hl).
    destruct (sort_insert_sorted x s Px HPs Hsorted)
      as (l' & Hi & Hperm' & Hsorted' & _).
    exists l'. repeat split; auto.
    rewrite Hperm', Hperm. reflexivity.
Qed.

End ArraySort.

Lemma Sorted_adjacent {A : Type} (R : A -> A -> Prop) (l : list A)
    (i : nat) (a b : A) :
  Sorted R l -> l !! i = Some a -> l !! S i = Some b -> R a b.
Proof.
  intros Hs. revert i. induction Hs as [|x l Hs IH Hhd]; intros i Ha Hb.
  - discriminate.
  - destruct i as [|i].
    + simpl in Ha, Hb. injection Ha as ->.
      destruct l as [|y l]; [discriminate|].
      simpl in Hb. injection Hb as ->.
      apply HdRel_inv in Hhd. exact Hhd.
    + exact (IH i Ha Hb).
Qed.

(** ** C1: the order [predraw] leaves *)

Lemma column_values_cells (i : nat) (rs : list Row) (vals : list value) :
  column_values i rs = Some vals ->
  Forall (fun r => exists v, cells r !! i = Some v /\ v ∈ vals) rs.
Proof.
  unfold column_values. intros H. apply mapM_Some in H.
  apply Forall_lookup. intros k r Hr.
  destruct (Forall2_lookup_l _ _ _ _ _ H Hr) as (v & Hv & Hc).
  exists v. split; [exact Hc | eapply list_elem_of_lookup_2; exact Hv].
Qed.

Lemma predraw_compare_cells (st : FT) (h : nat) (col : Column) (f : sorter_fn)
    (a b : Row) (va vb : value) :
  column (o st) = CColumn h -> columns st !! h = Some col ->
  col_sorter col = Some f ->
  cells a !! col_index col = Some va -> cells b !! col_index col = Some vb ->
  predraw_compare st a b
  = Ok (if is_ASC (direction (o st)) then f va vb else f vb va).
Proof.
  intros Hc Hcol Hf Ha Hb. unfold predraw_compare, cell_value.
  rewrite Hc, Hcol, Ha, Hb. cbn [bind]. rewrite Hf. reflexivity.
Qed.

Lemma consistentb_sound (f : sorter_fn) (vals : list value) :
  consistentb f vals = true -> consistent f vals.
Proof.
  unfold consistentb, consistent. intros H.
  rewrite forallb_forall in H.
  assert (Hle : forall n, le_zerob n = true <-> le_zero n).
  { intros [|z]; simpl; [split; [discriminate | contradiction]|].
    apply Z.leb_le. }
  split.
  - intros a b Ha Hb. apply list_elem_of_In in Ha, Hb.
    specialize (H a Ha). rewrite forallb_forall in H. specialize (H b Hb).
    apply andb_true_iff in H as [H _].
    destruct (f a b) as [|x]; [discriminate|].
    destruct (f b a) as [|y]; [discriminate|].
    exists x, y. repeat split. apply Z.eqb_eq. exact H.
  - intros a b c Ha Hb Hc Hab Hbc. apply list_elem_of_In in Ha, Hb, Hc.
    specialize (H a Ha). rewrite forallb_forall in H. specialize (H b Hb).
    apply andb_true_iff in H as [_ H].
    rewrite forallb_forall in H. specialize (H c Hc).
    apply Hle in Hab, Hbc. rewrite Hab, Hbc in H. simpl in H.
    apply Hle. exact H.
Qed.

(** C1, as the code has it.  On local data with sorting enabled, a resolved
    column that has a sorter, and a direction that is not empty, when every
    row has a cell for the column and the sorter is a consistent comparator
    on the values of these cells: [predraw] returns, changes the rows only,
    and leaves a permutation of them in which every adjacent pair
    [(a, b)] has [sorter(a.value, b.value) <= 0] when the direction is
    "ASC", and otherwise [sorter(b.value, a.value) <= 0], the sorter being
    called with the operands swapped, hence [sorter(a.value, b.value) >= 0].  *)
Theorem C1_predraw_orders_the_rows
    (st : FT) (h : nat) (col : Column) (f : sorter_fn) (d : string)
    (vals : list value) :
  enabled (o st) = true ->
  ajaxEnabled st = false ->
  column (o st) = CColumn h ->
  columns st !! h = Some col ->
  col_sorter col = Some f ->
  direction (o st) = Some d ->
  d <> EmptyString ->
  column_values (col_index col) (rows st) = Some vals ->
  consistent f vals ->
  exists st',
    predraw st = Ok st'
    /\ st' = set_rows st (rows st')
    /\ rows st' ≡ₚ rows st
    /\ forall i a b,
         rows st' !! i = Some a -> rows st' !! S i = Some b ->
         exists va vb,
           cells a !! col_index col = Some va
           /\ cells b !! col_index col = Some vb
           /\ if String.eqb d "ASC"
              then predraw_compare st a b = Ok (f va vb)
                   /\ le_zero (f va vb)
              else predraw_compare st a b = Ok (f vb va)
                   /\ le_zero (f vb va) /\ ge_zero (f va vb).
Proof.
  intros He Ha Hc Hcol Hf Hd Hne Hvals [Hsgn _].
  set (P := fun r : Row =>
              exists v, cells r !! col_index col = Some v /\ v ∈ vals).
  assert (HP : Forall P (rows st)) by (apply column_values_cells; exact Hvals).
  assert (Hcmp : forall a b va vb,
             cells a !! col_index col = Some va ->
             cells b !! col_index col = Some vb ->
             predraw_compare st a b
             = Ok (if String.eqb d "ASC" then f va vb else f vb va)).
  { intros a b va vb Hva Hvb.
    rewrite (predraw_compare_cells st h col f a b va vb) by assumption.
    rewrite Hd. reflexivity. }
  assert (Htotal : forall x y, P x -> P y ->
             exists n, predraw_compare st x y = Ok n
                       /\ (0 < sort_order n -> before (predraw_compare st) y x)).
  { intros x y (vx & Hx & Hvx) (vy & Hy & Hvy).
    rewrite (Hcmp x y vx vy Hx Hy). unfold before.
    rewrite (Hcmp y x vy vx Hy Hx).
    destruct (Hsgn vx vy Hvx Hvy) as (p & q & Hp & Hq & Hpq).
    destruct (String.eqb d "ASC"); eexists; (split; [reflexivity|]);
      intros Hpos; eexists; (split; [reflexivity|]);
      rewrite ?Hp, ?Hq in *; simpl in *; lia. }
  destruct (array_sort_sorted (predraw_compare st) P Htotal (rows st) HP)
    as (l' & Hsort & Hperm & Hsorted).
  exists (set_rows st l'). split; [|split; [reflexivity | split; [exact Hperm|]]].
  - unfold predraw. rewrite He, Ha, Hc, Hd. cbn [negb orb falsy_column falsy_direction].
    destruct (String.eqb_spec d EmptyString) as [->|_]; [contradiction|].
    rewrite Hsort. reflexivity.
  - cbn [rows set_rows]. intros i a b Hia Hib.
    assert (HP' : Forall P l') by (rewrite Hperm; exact HP).
    destruct (proj1 (Forall_lookup _ _) HP' _ _ Hia) as (va & Hva & Hina).
    destruct (proj1 (Forall_lookup _ _) HP' _ _ Hib) as (vb & Hvb & Hinb).
    exists va, vb. split; [exact Hva|]. split; [exact Hvb|].
    destruct (Sorted_adjacent _ _ _ _ _ Hsorted Hia Hib) as (n & Hn & Hle).
    rewrite (Hcmp a b va vb Hva Hvb) in Hn |- *.
    destruct (Hsgn va vb Hina Hinb) as (p & q & Hp & Hq & Hpq).
    destruct (String.eqb d "ASC"); injection Hn as <-;
      rewrite ?Hp, ?Hq in *; simpl in *; repeat split; lia.
Qed.

Lemma C1_predraw_orders_the_rows_witness :
  exists st',
    predraw (price_descending no_conversion) = Ok st'
    /\ rows st' ≡ₚ rows (price_descending no_conversion)
    /\ map cells (rows st')
       = [[VString "pear"; VNumber (Num 3)];
          [VString "kiwi"; VNumber (Num 2)];
          [VString "fig"; VNumber (Num 1)]].
Proof.
  set (st := price_descending no_conversion).
  assert (Hcol : exists col, columns st !! 1%nat = Some col
                             /\ col_sorter col = Some (number no_conversion)
                             /\ col_index col = 1%nat).
  { exists (default (blank_column EmptyString 0) (columns st !! 1%nat)).
    repeat split. }
  destruct Hcol as (col & Hcol & Hf & Hidx).
  assert (Hvals : column_values (col_index col) (rows st)
                  = Some [VNumber (Num 3); VNumber (Num 1); VNumber (Num 2)])
    by (rewrite Hidx; vm_compute; reflexivity).
  assert (Hcons : consistent (number no_conversion)
                    [VNumber (Num 3); VNumber (Num 1); VNumber (Num 2)])
    by (apply consistentb_sound; vm_compute; reflexivity).
  destruct (C1_predraw_orders_the_rows st 1 col (number no_conversion) "DESC" _
              eq_refl eq_refl eq_refl Hcol Hf eq_refl
              ltac:(discriminate) Hvals Hcons)
    as (st' & Hp & _ & Hperm & _).
  exists st'. split; [exact Hp|]. split; [exact Hperm|].
  assert (Hc : match predraw st with
               | Ok s => map cells (rows s)
               | Throw _ => []
               end
               = [[VString "pear"; VNumber (Num 3)];
                  [VString "kiwi"; VNumber (Num 2)];
                  [VString "fig"; VNumber (Num 1)]])
    by (vm_compute; reflexivity).
  rewrite Hp in Hc. exact Hc.
Defined.

(** C1, as the spec has it, fails: the claim names no condition on the
    sorter or on the values.  Under the text sorter, [null] and [undefined]
    compare as greater in both orders.  [predraw] returns on the two rows,
    ascending, and the one adjacent pair it leaves has a sorter result of 1;
    no order of the two rows would do better. *)
Lemma C1_text_sorter_cannot_order :
  let st := sparse_table no_conversion in
  enabled (o st) = true
  /\ ajaxEnabled st = false
  /\ column (o st) = CColumn 0
  /\ direction (o st) = Some "ASC"
  /\ option_map col_sorter (columns st !! 0%nat) = Some (Some (text no_conversion))
  /\ text no_conversion VNull VUndefined = Num 1
  /\ text no_conversion VUndefined VNull = Num 1
  /\ exists st' a b va vb,
       predraw st = Ok st'
       /\ rows st' !! 0%nat = Some a /\ rows st' !! 1%nat = Some b
       /\ cells a !! 0%nat = Some va /\ cells b !! 0%nat = Some vb
       /\ ~ le_zero (text no_conversion va vb).
Proof.
  intros st.
  split; [reflexivity|]. split; [reflexivity|]. split; [reflexivity|].
  split; [reflexivity|]. split; [reflexivity|]. split; [reflexivity|].
  split; [reflexivity|].
  exists (set_rows st [{| cells := [VUndefined] |}; {| cells := [VNull] |}]),
    {| cells := [VUndefined] |}, {| cells := [VNull] |}, VUndefined, VNull.
  split; [reflexivity|]. split; [reflexivity|]. split; [reflexivity|].
  split; [reflexivity|]. split; [reflexivity|].
  simpl. lia.
Qed.

(** ** C8: the text sorter *)

Lemma string_compare_refl (s : string) : String.compare s s = Eq.
Proof.
  pose proof (String.compare_antisym s s) as H.
  destruct (String.compare s s); [reflexivity | discriminate H | discriminate H].
Qed.

Lemma text_strings (S2N : string -> jsnum) (s t : string) :
  text S2N (VString s) (VString t)
  = match String.compare (toLowerCase s) (toLowerCase t) with
    | Eq => Num 0
    | Lt => Num (-1)
    | Gt => Num 1
    end.
Proof.
  unfold text. cbn [is_string value_toLowerCase strict_eq js_lt].
  unfold String.ltb.
  destruct (String.eqb_spec (toLowerCase s) (toLowerCase t)) as [E|E].
  - rewrite E, string_compare_refl. reflexivity.
  - destruct (String.compare (toLowerCase s) (toLowerCase t)) eqn:Hc;
      try reflexivity.
    apply String.compare_eq_iff in Hc. contradiction.
Qed.



(** * Further properties of the component *)

(** ** [predraw]: membership, small tables, a missing sorter, a second run *)

Lemma sort_insert_perm {A : Type} (comparefn : A -> A -> result jsnum)
    (x : A) (l l' : list A) :
  sort_insert comparefn x l = Ok l' -> l' ≡ₚ x :: l.
Proof.
  revert l'. induction l as [|y l IH]; intros l' H; simpl in H.
  - injection H as <-. reflexivity.
  - destruct (comparefn x y) as [v|e]; [|discriminate]. cbn [bind] in H.
    destruct (sort_order v <=? 0).
    + injection H as <-. reflexivity.
    + destruct (sort_insert comparefn x l) as [r|e]; [|discriminate].
      cbn [bind] in H. injection H as <-.
      rewrite (IH r eq_refl). apply perm_swap.
Qed.

Lemma array_sort_perm {A : Type} (comparefn : A -> A -> result jsnum)
    (l l' : list A) :
  array_sort comparefn l = Ok l' -> l' ≡ₚ l.
Proof.
  revert l'. induction l as [|x l IH]; intros l' H; simpl in H.
  - injection H as <-. reflexivity.
  - destruct (array_sort comparefn l) as [s|e]; [|discriminate].
    cbn [bind] in H. apply sort_insert_perm in H.
    rewrite H, (IH s eq_refl). reflexivity.
Qed.

Lemma array_sort_fixed {A : Type} (comparefn : A -> A -> result jsnum)
    (l : list A) :
  Sorted (before comparefn) l -> array_sort comparefn l = Ok l.
Proof.
  induction 1 as [|x l Hs IH Hhd]; [reflexivity|].
  simpl. rewrite IH. cbn [bind].
  destruct Hhd as [|y l (n & Hn & Hle)]; [reflexivity|].
  simpl. rewrite Hn. cbn [bind].
  apply Z.leb_le in Hle. rewrite Hle. reflexivity.
Qed.

Lemma array_sort_throws {A : Type} (comparefn : A -> A -> result jsnum)
    (e : exn) (l : list A) :
  (forall x y, comparefn x y = Throw e) -> (2 <= length l)%nat ->
  array_sort comparefn l = Throw e.
Proof.
  intros Hc. induction l as [|x l IH]; intros Hl; simpl in Hl; [lia|].
  simpl. destruct l as [|y l]; [simpl in Hl; lia|].
  destruct l as [|z l].
  - simpl. rewrite Hc. reflexivity.
  - rewrite IH by (simpl; lia). reflexivity.
Qed.

Lemma predraw_keeps_the_rows_aux (st st' : FT) :
  predraw st = Ok st' ->
  rows st' ≡ₚ rows st /\ st' = set_rows st (rows st').
Proof.
  unfold predraw. intros H.
  destruct (negb (enabled (o st)) || ajaxEnabled st
            || falsy_column (column (o st))
            || falsy_direction (direction (o st))).
  - injection H as <-. split; [reflexivity | destruct st; reflexivity].
  - destruct (array_sort (predraw_compare st) (rows st)) as [l|e] eqn:Hs;
      [|discriminate].
    cbn [bind] in H. injection H as <-.
    split; [apply array_sort_perm in Hs; exact Hs | reflexivity].
Qed.

(** X1.  Whenever [predraw] returns, it has changed nothing but the order of
    the rows: the rows after it are a permutation of the rows before, for
    any sorter, and every other part of the instance is what it was. *)
Theorem predraw_keeps_the_rows (st st' : FT) :
  predraw st = Ok st' ->
  rows st' ≡ₚ rows st /\ st' = set_rows st (rows st').
Proof. exact (predraw_keeps_the_rows_aux st st'). Qed.

Lemma predraw_keeps_the_rows_witness :
  let st := price_descending no_conversion in
  let st' := set_rows st
               [{| cells := [VString "pear"; VNumber (Num 3)] |};
                {| cells := [VString "kiwi"; VNumber (Num 2)] |};
                {| cells := [VString "fig"; VNumber (Num 1)] |}] in
  predraw st = Ok st' /\ rows st' ≡ₚ rows st.
Proof.
  intros st st'.
  assert (H : predraw st = Ok st') by reflexivity.
  split; [exact H | exact (proj1 (predraw_keeps_the_rows st st' H))].
Defined.

(** X2.  On a table of one row at most, [predraw] returns the instance as it
    is, whatever the options, the sorter and the cells: the comparison
    function is not called. *)
Theorem predraw_of_one_row (st : FT) :
  (length (rows st) <= 1)%nat -> predraw st = Ok st.
Proof.
  intros Hl. unfold predraw.
  destruct (negb (enabled (o st)) || ajaxEnabled st
            || falsy_column (column (o st))
            || falsy_direction (direction (o st))); [reflexivity|].
  destruct st as [o0 a0 r0 c0 rows0 t0 k0 l0 e0 q0]. cbn [rows] in *.
  destruct rows0 as [|x [|y rest]]; [reflexivity | reflexivity|].
  simpl in Hl. lia.
Qed.

Lemma predraw_of_one_row_witness :
  let st := set_rows (price_descending no_conversion) [{| cells := [] |}] in
  predraw st = Ok st.
Proof.
  intros st. apply (predraw_of_one_row st). simpl. lia.
Defined.

(** X3.  With sorting enabled on local data and a direction, when the
    sorted column has no sorter (the [null] of [Column.prototype], which
    [ctor_column] leaves when the registry has no text sorter), [predraw]
    on two rows or more ends with a [TypeError]. *)
Theorem predraw_without_a_sorter (st : FT) (h : nat) (col : Column) (d : string) :
  enabled (o st) = true ->
  ajaxEnabled st = false ->
  column (o st) = CColumn h ->
  columns st !! h = Some col ->
  col_sorter col = None ->
  direction (o st) = Some d ->
  d <> EmptyString ->
  (2 <= length (rows st))%nat ->
  predraw st = Throw TypeError.
Proof.
  intros He Ha Hc Hcol Hs Hd Hne Hl. unfold predraw.
  rewrite He, Ha, Hc, Hd. cbn [negb orb falsy_column falsy_direction].
  destruct (String.eqb_spec d EmptyString) as [->|_]; [contradiction|].
  rewrite (array_sort_throws (predraw_compare st) TypeError); [reflexivity| |exact Hl].
  intros x y. unfold predraw_compare. rewrite Hc, Hcol, Hs.
  destruct (cell_value x (col_index col)) as [vx|[]]; [|reflexivity].
  cbn [bind].
  destruct (cell_value y (col_index col)) as [vy|[]]; reflexivity.
Qed.

Lemma predraw_without_a_sorter_witness :
  let st0 := price_descending no_conversion in
  let st := set_columns st0 (map (fun c => blank_column (col_name c) (col_index c))
                               (columns st0)) in
  predraw st = Throw TypeError.
Proof.
  intros st0 st.
  apply (predraw_without_a_sorter st 1 (blank_column "price" 1) "DESC");
    try reflexivity; [discriminate | simpl; lia].
Defined.


Lemma predraw_sorted_rows
    (st : FT) (h : nat) (col : Column) (f : sorter_fn) (d : string)
    (vals : list value) :
  enabled (o st) = true ->
  ajaxEnabled st = false ->
  column (o st) = CColumn h ->
  columns st !! h = Some col ->
  col_sorter col = Some f ->
  direction (o st) = Some d ->
  d <> EmptyString ->
  column_values (col_index col) (rows st) = Some vals ->
  consistent f vals ->
  exists l',
    predraw st = Ok (set_rows st l')
    /\ l' ≡ₚ rows st
    /\ Sorted (before (predraw_compare st)) l'.
Proof.
  intros He Ha Hc Hcol Hf Hd Hne Hvals [Hsgn _].
  set (P := fun r : Row =>
              exists v, cells r !! col_index col = Some v /\ v ∈ vals).
  assert (HP : Forall P (rows st)) by (apply column_values_cells; exact Hvals).
  assert (Htotal : forall x y, P x -> P y ->
             exists n, predraw_compare st x y = Ok n
                       /\ (0 < sort_order n -> before (predraw_compare st) y x)).
  { intros x y (vx & Hx & Hvx) (vy & Hy & Hvy). unfold before.
    rewrite (predraw_compare_cells st h col f x y vx vy) by assumption.
    rewrite (predraw_compare_cells st h col f y x vy vx) by assumption.
    destruct (Hsgn vx vy Hvx Hvy) as (p & q & Hp & Hq & Hpq).
    destruct (is_ASC (direction (o st))); eexists; (split; [reflexivity|]);
      intros Hpos; eexists; (split; [reflexivity|]);
      rewrite ?Hp, ?Hq in *; simpl in *; lia. }
  destruct (array_sort_sorted (predraw_compare st) P Htotal (rows st) HP)
    as (l' & Hsort & Hperm & Hsorted).
  exists l'. split; [|split; assumption].
  unfold predraw. rewrite He, Ha, Hc, Hd.
  cbn [negb orb falsy_column falsy_direction].
  destruct (String.eqb_spec d EmptyString) as [->|_]; [contradiction|].
  rewrite Hsort. reflexivity.
Qed.

(** X4.  A second run changes nothing.  Under the conditions in which
    [predraw] orders the rows (local data, sorting enabled, a resolved
    column with a sorter that is a consistent comparator on the cells of the
    column, a direction), [predraw] on the state it returned returns that
    state again. *)
Theorem predraw_twice
    (st : FT) (h : nat) (col : Column) (f : sorter_fn) (d : string)
    (vals : list value) :
  enabled (o st) = true ->
  ajaxEnabled st = false ->
  column (o st) = CColumn h ->
  columns st !! h = Some col ->
  col_sorter col = Some f ->
  direction (o st) = Some d ->
  d <> EmptyString ->
  column_values (col_index col) (rows st) = Some vals ->
  consistent f vals ->
  exists st', predraw st = Ok st' /\ predraw st' = Ok st'.
Proof.
  intros He Ha Hc Hcol Hf Hd Hne Hvals Hcons.
  destruct (predraw_sorted_rows st h col f d vals He Ha Hc Hcol Hf Hd Hne
              Hvals Hcons) as (l' & Hp & _ & Hsorted).
  exists (set_rows st l'). split; [exact Hp|].
  unfold predraw. cbn [o ajaxEnabled rows set_rows].
  rewrite He, Ha, Hc, Hd. cbn [negb orb falsy_column falsy_direction].
  destruct (String.eqb_spec d EmptyString) as [->|_]; [contradiction|].
  change (predraw_compare (set_rows st l')) with (predraw_compare st).
  rewrite (array_sort_fixed _ _ Hsorted). reflexivity.
Qed.

Lemma predraw_twice_witness :
  exists st',
    predraw (price_descending no_conversion) = Ok st'
    /\ predraw st' = Ok st'.
Proof.
  set (st := price_descending no_conversion).
  apply (predraw_twice st 1
           (default (blank_column EmptyString 0) (columns st !! 1%nat))
           (number no_conversion) "DESC"
           [VNumber (Num 3); VNumber (Num 1); VNumber (Num 2)]);
    try reflexivity.
  - discriminate.
  - apply consistentb_sound. vm_compute. reflexivity.
Defined.

(** ** The two sorters of the registry order their own kind of value *)

Lemma string_compare_trans (s t u : string) :
  String.compare s t <> Gt -> String.compare t u <> Gt ->
  String.compare s u <> Gt.
Proof.
  revert t u. induction s as [|a s IH]; intros [|b t] [|c u]; simpl;
    try congruence.
  unfold Ascii.compare.
  destruct (N.compare_spec (N_of_ascii a) (N_of_ascii b)) as [Eab|Lab|Gab];
    destruct (N.compare_spec (N_of_ascii b) (N_of_ascii c)) as [Ebc|Lbc|Gbc];
    destruct (N.compare_spec (N_of_ascii a) (N_of_ascii c)) as [Eac|Lac|Gac];
    try congruence; try lia.
  apply IH.
Qed.

(** X5.  The text sorter is a consistent comparator on strings: on any list
    of strings it returns numbers, swapping the operands swaps the sign, and
    [<= 0] is transitive.  So [predraw] orders a text column whose cells
    are all strings. *)
Theorem text_orders_strings (S2N : string -> jsnum) (ss : list string) :
  consistent (text S2N) (map VString ss).
Proof.
  split.
  - intros a b Ha Hb.
    apply list_elem_of_fmap in Ha as (s & -> & _).
    apply list_elem_of_fmap in Hb as (t & -> & _).
    rewrite !text_strings.
    rewrite (String.compare_antisym (toLowerCase t) (toLowerCase s)).
    destruct (String.compare (toLowerCase s) (toLowerCase t));
      eexists _, _; repeat split.
  - intros a b c Ha Hb Hc.
    apply list_elem_of_fmap in Ha as (s & -> & _).
    apply list_elem_of_fmap in Hb as (t & -> & _).
    apply list_elem_of_fmap in Hc as (u & -> & _).
    rewrite !text_strings. intros Hst Htu.
    pose proof (string_compare_trans (toLowerCase s) (toLowerCase t)
                  (toLowerCase u)) as Htr.
    destruct (String.compare (toLowerCase s) (toLowerCase t));
      destruct (String.compare (toLowerCase t) (toLowerCase u));
      destruct (String.compare (toLowerCase s) (toLowerCase u));
      simpl in *; try lia; exfalso; apply Htr; congruence.
Qed.

(** X6.  On integers of magnitude 2^52 at most, whose difference a double
    holds exactly, the number sorter returns the difference [a - b], and it
    is a consistent comparator on any list of such numbers: the sign swaps
    with the operands and [<= 0] is transitive. *)
Theorem number_orders_numbers (S2N : string -> jsnum) (zs : list Z) :
  Forall exact_difference zs ->
  consistent (number S2N) (map (fun z => VNumber (Num z)) zs)
  /\ (forall x y, x ∈ zs -> y ∈ zs ->
        number S2N (VNumber (Num x)) (VNumber (Num y)) = Num (x - y)
        /\ Z.abs (x - y) <= 2 ^ 53).
Proof.
  intros Hz. split; [split|].
  - intros a b Ha Hb.
    apply list_elem_of_fmap in Ha as (x & -> & _).
    apply list_elem_of_fmap in Hb as (y & -> & _).
    exists (x - y), (y - x). repeat split. lia.
  - intros a b c Ha Hb Hc.
    apply list_elem_of_fmap in Ha as (x & -> & _).
    apply list_elem_of_fmap in Hb as (y & -> & _).
    apply list_elem_of_fmap in Hc as (z & -> & _).
    simpl. lia.
  - intros x y Hx Hy. split; [reflexivity|].
    rewrite Forall_forall in Hz.
    pose proof (Hz x Hx) as Bx. pose proof (Hz y Hy) as By.
    unfold exact_difference in Bx, By.
    change (2 ^ 53) with (2 * 2 ^ 52). lia.
Qed.

Lemma number_orders_numbers_witness :
  consistent (number no_conversion)
    [VNumber (Num 3); VNumber (Num 1); VNumber (Num 2)]
  /\ number no_conversion (VNumber (Num 3)) (VNumber (Num 1)) = Num 2.
Proof.
  assert (Hz : Forall exact_difference [3; 1; 2]).
  { repeat constructor; unfold exact_difference; simpl; lia. }
  destruct (number_orders_numbers no_conversion [3; 1; 2] Hz) as (Hc & Hd).
  split; [exact Hc|].
  apply Hd; [apply list_elem_of_here | apply list_elem_of_further, list_elem_of_here].
Defined.

(** ** [ctor_column]: which sorter a column gets *)

(** X7.  Under the registry of the defaults, the sorter of a constructed
    column is the function of the definition when there is one, the number
    sorter for the type number, and the text sorter for the type text, for
    a definition without a type and for every other type that is not a name
    of [Object.prototype] (for such a name the registry, a plain object,
    gives the inherited member).  The column keeps its name and index, is
    sortable and not sorted unless the definition says otherwise, has a
    direction only when the definition gives a string, and its header gets
    ['footable-sortable'] exactly when sorting is enabled and the column is
    sortable. *)
Theorem ctor_column_sorter
    (S2N : string -> jsnum) (st : FT) (col : Column) (def : ColumnDefinition) :
  options_sorters st = sorters S2N ->
  let c := ctor_column st col def in
  (forall f, d_sorter def = Some f -> col_sorter c = Some f)
  /\ (d_sorter def = None -> d_type def = Some "number" ->
      col_sorter c = Some (number S2N))
  /\ (d_sorter def = None -> d_type def = Some "text" ->
      col_sorter c = Some (text S2N))
  /\ (d_sorter def = None -> d_type def = None ->
      col_sorter c = Some (text S2N))
  /\ (forall ty, d_sorter def = None -> d_type def = Some ty ->
        ty <> "number" -> inherited ty = false ->
        col_sorter c = Some (text S2N))
  /\ col_name c = col_name col
  /\ col_index c = col_index col
  /\ col_sortable c = default true (d_sortable def)
  /\ col_sorted c = default false (d_sorted def)
  /\ col_direction c
     = match d_direction def with VString s => Some s | _ => None end
  /\ (hasClass "footable-sortable" (classes (col_el col)) = false ->
      hasClass "footable-sortable" (classes (col_el c))
      = enabled (o st) && default true (d_sortable def)).
Proof.
  intros Hreg c. subst c. unfold ctor_column. rewrite Hreg.
  cbn [col_sorter col_name col_index col_sortable col_sorted col_direction col_el].
  split; [intros f ->; reflexivity|].
  split; [intros -> ->; reflexivity|].
  split; [intros -> ->; reflexivity|].
  split; [intros -> ->; reflexivity|].
  split.
  { intros ty -> -> Hty _.
    unfold sorters. cbn -[String.eqb].
    destruct (String.eqb_spec "text" ty) as [E|_]; [reflexivity|].
    cbn -[String.eqb].
    destruct (String.eqb_spec "number" ty) as [<-|_]; [congruence|].
    reflexivity. }
  split; [reflexivity|]. split; [reflexivity|].
  split; [destruct (d_sortable def); reflexivity|].
  split; [destruct (d_sorted def); reflexivity|].
  split; [reflexivity|].
  intros Hno. destruct (d_sortable def) as [[|]|]; cbn [default];
    destruct (enabled (o st)); cbn [andb]; try exact Hno;
    unfold on_classes, addClass; cbn [classes]; rewrite Hno;
    unfold hasClass; rewrite existsb_app; simpl; apply orb_true_r.
Qed.

Lemma ctor_column_sorter_witness :
  let st := empty_table no_conversion true false in
  col_sorter (ctor_column st (blank_column "when" 0) (typed "date"))
  = Some (text no_conversion)
  /\ col_sorter (ctor_column st (blank_column "price" 1) (typed "number"))
     = Some (number no_conversion)
  /\ hasClass "footable-sortable"
       (classes (col_el (ctor_column st (blank_column "when" 0) (typed "date"))))
     = true.
Proof.
  intros st.
  destruct (ctor_column_sorter no_conversion st (blank_column "when" 0)
              (typed "date") eq_refl)
    as (_ & _ & _ & _ & Ht & _ & _ & _ & _ & _ & Hc).
  destruct (ctor_column_sorter no_conversion st (blank_column "price" 1)
              (typed "number") eq_refl) as (_ & Hn & _).
  split; [apply (Ht "date"); [reflexivity | reflexivity | discriminate | reflexivity]|].
  split; [apply Hn; reflexivity|].
  rewrite (Hc eq_refl). reflexivity.
Defined.

(** ** [init] and [_generate]: the resolved state *)

Lemma _generate_shape (st : FT) :
  let c :=
    match columns_get (columns st) (column (o st)) with
    | CNull => columns_first (columns st) col_sorted
    | found => found
    end in
  let d :=
    match c with
    | CNull => None
    | _ =>
        match direction (o st) with
        | None => Some (default "ASC" (column_direction (columns st) c))
        | Some od => Some od
        end
    end in
  o (_generate st) = {| enabled := enabled (o st); column := c; direction := d |}
  /\ columns (_generate st)
     = map (fun col =>
              if col_sortable col
              then set_el col
                     {| classes := classes (col_el col);
                        spans := (spans (col_el col) ++ [sort_icon])%list |}
              else col)
           (each_direction c d (columns st))
  /\ rows (_generate st) = rows st
  /\ events (_generate st) = events st
  /\ click_handlers (_generate st) = S (click_handlers st)
  /\ table_classes (_generate st) = addClass "footable-sorting" (table_classes st).
Proof.
  intros c d. subst c d. unfold _generate. cbn.
  destruct (match columns_get (columns st) (column (o st)) with
            | CNull => columns_first (columns st) col_sorted
            | _ => columns_get (columns st) (column (o st))
            end) eqn:E; cbn;
    destruct (direction (o st)); cbn;
    try destruct (column_direction (columns st) _); repeat split.
Qed.

Lemma columns_first_resolved (cols : list Column) (p : Column -> bool) :
  columns_first cols p = CNull
  \/ exists h c, columns_first cols p = CColumn h
                 /\ cols !! h = Some c /\ p c = true.
Proof.
  unfold columns_first. destruct (find_index p cols) as [i|] eqn:Hf.
  - right. apply find_index_Some in Hf as (c & Hc & Hp). eauto.
  - left. reflexivity.
Qed.

(** X8.  With sorting enabled, [init] leaves a resolved state: either no
    column is sorted, the direction is [null] and no column has a
    direction; or the sorted column is a column of the table, the direction
    is not [null], that column has this direction and it is the only one
    that has a direction.  A column the options refer to wins over the
    [sorted] flags, and a direction of the options wins over the declared
    direction of the column.  The rows are not touched, ['sorting_init'] is
    raised and one click handler is bound. *)
Theorem init_resolves (st : FT) :
  enabled (o st) = true ->
  let st' := init st in
  ((column (o st') = CNull /\ direction (o st') = None
    /\ directed (columns st') = 0%nat)
   \/ (exists h c d,
         column (o st') = CColumn h /\ columns st' !! h = Some c
         /\ direction (o st') = Some d /\ col_direction c = Some d
         /\ directed (columns st') = 1%nat))
  /\ (forall h, columns_get (columns st) (column (o st)) = CColumn h ->
        column (o st') = CColumn h)
  /\ (forall d0, direction (o st) = Some d0 -> column (o st') <> CNull ->
        direction (o st') = Some d0)
  /\ (forall h c, direction (o st) = None -> column (o st') = CColumn h ->
        columns st !! h = Some c ->
        direction (o st') = Some (default "ASC" (col_direction c)))
  /\ rows st' = rows st
  /\ events st' = (events st ++ [{| ev_name := "sorting_init"; ev_args := [] |}])%list
  /\ click_handlers st' = S (click_handlers st).
Proof.
  intros He st'. subst st'. unfold init. rewrite He. cbn [negb].
  destruct (_generate_shape st) as (Ho & Hcols & Hrows & Hev & Hck & _).
  cbn [o columns rows events click_handlers raise set_events].
  rewrite Ho, Hcols, Hrows, Hev, Hck. cbn [column direction].
  set (c := match columns_get (columns st) (column (o st)) with
            | CNull => columns_first (columns st) col_sorted
            | found => found
            end) in *.
  assert (Hc : c = CNull \/ exists h, c = CColumn h /\ (h < length (columns st))%nat).
  { subst c.
    destruct (columns_get_resolved (columns st) (column (o st)))
      as [-> | (h & -> & Hh)]; [|eauto].
    destruct (columns_first_resolved (columns st) col_sorted)
      as [-> | (h & x & -> & Hx & _)]; [auto|].
    right. exists h. split; [reflexivity | eapply lookup_lt_Some; exact Hx]. }
  assert (Hmap : forall cs, directed
                   (map (fun col =>
                           if col_sortable col
                           then set_el col
                                  {| classes := classes (col_el col);
                                     spans := (spans (col_el col) ++ [sort_icon])%list |}
                           else col) cs) = directed cs).
  { intros cs. apply directed_map. intros x. destruct (col_sortable x); reflexivity. }
  split; [|split; [|split; [|split; [|repeat split]]]].
  - destruct Hc as [-> | (h & -> & Hh)].
    + left. repeat split. rewrite Hmap. apply each_direction_none.
    + right.
      set (d := match direction (o st) with
                | Some od => od
                | None => default "ASC" (column_direction (columns st) (CColumn h))
                end).
      assert (Hd : match direction (o st) with
                   | Some od => Some od
                   | None => Some (default "ASC"
                                     (column_direction (columns st) (CColumn h)))
                   end = Some d) by (subst d; destruct (direction (o st)); reflexivity).
      rewrite Hd.
      destruct (lookup_lt_is_Some_2 (columns st) h Hh) as (x & Hx).
      destruct (each_direction_name (CColumn h) (Some d) _ _ _ Hx) as (y & Hy & _).
      pose proof (each_direction_lookup _ _ _ _ _ Hy) as Hyd.
      simpl in Hyd. rewrite Nat.eqb_refl in Hyd.
      eexists h, _, d. split; [reflexivity|].
      split; [rewrite list_lookup_fmap, Hy; reflexivity|].
      split; [reflexivity|].
      split; [destruct (col_sortable y); exact Hyd|].
      rewrite Hmap. apply each_direction_one. exact Hh.
  - intros h Hh. subst c. rewrite Hh. reflexivity.
  - intros d0 Hd0 Hn. rewrite Hd0. destruct c; [contradiction | | |]; reflexivity.
  - intros h x Hd0 Hh Hx. rewrite Hh, Hd0. simpl. rewrite Hx. reflexivity.
Qed.

Lemma init_resolves_witness :
  let st := table_of no_conversion true false
              [("name", typed "text"); ("price", typed_directed "number" "DESC")]
              [] in
  column (o st) = CNull /\ direction (o st) = None.
Proof.
  intros st.
  pose proof (init_resolves
                (set_rows
                   (set_columns (empty_table no_conversion true false)
                      (imap (fun i d => ctor_column (empty_table no_conversion true false)
                                          (blank_column (fst d) i) (snd d))
                         [("name", typed "text");
                          ("price", typed_directed "number" "DESC")]))
                   (map (fun r => {| cells := r |}) []))
                eq_refl) as (H & _).
  destruct H as [(Hc & Hd & _) | (h & c & d & Hc & _)].
  - split; [exact Hc | exact Hd].
  - vm_compute in Hc. discriminate Hc.
Defined.

(** ** [destroy] and [reinit]: what is taken down and what is not *)

Lemma hasClass_removeClass (a b : string) (cl : list string) :
  hasClass a (removeClass b cl) = negb (String.eqb b a) && hasClass a cl.
Proof.
  unfold hasClass, removeClass. induction cl as [|x cl IH]; simpl.
  - rewrite andb_false_r. reflexivity.
  - destruct (String.eqb_spec b x) as [<-|Hbx]; simpl.
    + rewrite IH. rewrite (String.eqb_sym a b).
      destruct (String.eqb b a); reflexivity.
    + rewrite IH. destruct (String.eqb_spec a x) as [<-|Hax]; simpl.
      * destruct (String.eqb_spec b a) as [E|_]; [contradiction | reflexivity].
      * reflexivity.
Qed.

Lemma hasClass_addClass (a b : string) (cl : list string) :
  hasClass a (addClass b cl) = String.eqb a b || hasClass a cl.
Proof.
  unfold addClass. destruct (hasClass b cl) eqn:Hb.
  - destruct (String.eqb_spec a b) as [->|_]; [rewrite Hb|]; reflexivity.
  - unfold hasClass. rewrite existsb_app. simpl. rewrite orb_false_r.
    apply orb_comm.
Qed.

Lemma each_direction_at (c : colref) (d : option string)
    (cols : list Column) (i : nat) (x : Column) :
  cols !! i = Some x ->
  each_direction c d cols !! i
  = Some (set_direction x (if is_column c i then d else None)).
Proof.
  intros Hx. unfold each_direction. rewrite list_lookup_imap, Hx.
  cbn [fmap option_fmap option_map]. destruct (is_column c i); reflexivity.
Qed.

Lemma destroy_takes_down_aux (st : FT) :
  enabled (o st) = true ->
  let st' := destroy st in
  click_handlers st' = 0%nat
  /\ Forall (fun c => hasClass "footable-sortable" (classes (col_el c)) = false)
       (columns st')
  /\ Forall2
       (fun c c' =>
          same_column c c' /\ col_direction c' = col_direction c
          /\ (forall cl, cl <> "footable-sortable" ->
                hasClass cl (classes (col_el c')) = hasClass cl (classes (col_el c)))
          /\ (forall sp, sp ∈ spans (col_el c) -> hasClass "direction" sp = false ->
                sp ∈ spans (col_el c'))
          /\ (forall sp, sp ∈ spans (col_el c') -> sp ∈ spans (col_el c)))
       (columns st) (columns st')
  /\ o st' = o st /\ rows st' = rows st
  /\ table_classes st' = table_classes st /\ events st' = events st.
Proof.
  intros He st'. subst st'. unfold destroy. rewrite He. cbn [negb].
  cbn [click_handlers columns o rows table_classes events set_columns
       set_click_handlers].
  split; [reflexivity|]. split; [|split; [|repeat split]].
  - apply Forall_fmap, Forall_forall. intros c _. cbn [compose].
    destruct (hasClass "footable-sortable" (classes (col_el c))) eqn:Hc.
    + cbn [col_el set_el classes]. rewrite hasClass_removeClass. reflexivity.
    + exact Hc.
  - apply Forall2_fmap_r, Forall_Forall2_diag, Forall_forall. intros c _.
    unfold compose. cbv beta zeta.
    destruct (hasClass "footable-sortable" (classes (col_el c))) eqn:Hc.
    + cbn [col_el set_el classes spans col_direction]. unfold same_column.
      cbn [col_name col_index col_sorter col_sortable col_sorted set_el].
      split; [repeat split|]. split; [reflexivity|].
      split; [|split].
      * intros cl Hcl. rewrite hasClass_removeClass.
        destruct (String.eqb_spec "footable-sortable" cl) as [<-|_];
          [contradiction | reflexivity].
      * intros sp Hsp Hd. apply list_elem_of_In, filter_In.
        split; [apply list_elem_of_In; exact Hsp | rewrite Hd; reflexivity].
      * intros sp Hsp. apply list_elem_of_In, filter_In in Hsp as [Hsp _].
        apply list_elem_of_In. exact Hsp.
    + unfold same_column. repeat split; auto.
Qed.

(** X9.  With sorting enabled, [destroy] unbinds the click handler and takes
    ['footable-sortable'] off every header.  Under a header that carried
    it, it removes the child spans of class ['direction'], all of them and
    only them, in place; a header that did not carry it is left as it is.
    It changes nothing else of a column: every other class of a header
    stays, the marks ['footable-asc'] and ['footable-desc'] among them, and
    every other child span stays, the icons [_generate] appended among
    them.  The options, the rows and the classes of the table stay as
    well. *)
Theorem destroy_takes_down (st : FT) :
  enabled (o st) = true ->
  let st' := destroy st in
  click_handlers st' = 0%nat
  /\ Forall (fun c => hasClass "footable-sortable" (classes (col_el c)) = false)
       (columns st')
  /\ Forall2
       (fun c c' =>
          same_column c c' /\ col_direction c' = col_direction c
          /\ (forall cl, cl <> "footable-sortable" ->
                hasClass cl (classes (col_el c')) = hasClass cl (classes (col_el c)))
          /\ (forall sp, sp ∈ spans (col_el c) -> hasClass "direction" sp = false ->
                sp ∈ spans (col_el c'))
          /\ (forall sp, sp ∈ spans (col_el c') -> sp ∈ spans (col_el c))
          /\ (hasClass "footable-sortable" (classes (col_el c)) = true ->
              classes (col_el c')
              = removeClass "footable-sortable" (classes (col_el c))
              /\ spans (col_el c')
                 = List.filter (fun sp => negb (hasClass "direction" sp))
                     (spans (col_el c))
              /\ Forall (fun sp => hasClass "direction" sp = false)
                   (spans (col_el c')))
          /\ (hasClass "footable-sortable" (classes (col_el c)) = false ->
              c' = c))
       (columns st) (columns st')
  /\ o st' = o st /\ rows st' = rows st
  /\ table_classes st' = table_classes st /\ events st' = events st.
Proof.
  intros He st'. subst st'.
  destruct (destroy_takes_down_aux st He) as (Hk & Hno & Hcols & Hrest).
  split; [exact Hk|]. split; [exact Hno|]. split; [|exact Hrest].
  assert (Hexact : Forall2
            (fun c c' =>
               (hasClass "footable-sortable" (classes (col_el c)) = true ->
                classes (col_el c')
                = removeClass "footable-sortable" (classes (col_el c))
                /\ spans (col_el c')
                   = List.filter (fun sp => negb (hasClass "direction" sp))
                       (spans (col_el c))
                /\ Forall (fun sp => hasClass "direction" sp = false)
                     (spans (col_el c')))
               /\ (hasClass "footable-sortable" (classes (col_el c)) = false ->
                   c' = c))
            (columns st) (columns (destroy st))).
  { unfold destroy. rewrite He. cbn [negb columns set_columns set_click_handlers].
    apply Forall2_fmap_r, Forall_Forall2_diag, Forall_forall. intros c _.
    unfold compose. cbv beta zeta.
    destruct (hasClass "footable-sortable" (classes (col_el c))) eqn:Hc.
    - split; [|discriminate]. intros _.
      cbn [col_el set_el classes spans].
      split; [reflexivity|]. split; [reflexivity|].
      apply Forall_forall. intros sp Hsp.
      apply list_elem_of_In, filter_In in Hsp as [_ Hsp].
      destruct (hasClass "direction" sp); [discriminate Hsp | reflexivity].
    - split; [discriminate | reflexivity]. }
  revert Hcols Hexact. generalize (columns st) (columns (destroy st)).
  intros l k H1. induction H1 as [|x y l k Hxy H1 IH]; intros H2.
  - constructor.
  - inversion H2 as [|x0 y0 l0 k0 (Hy1 & Hy2) H2']; subst.
    constructor; [|apply IH; exact H2'].
    destruct Hxy as (Ha & Hb & Hc & Hd & Hf).
    split; [exact Ha|]. split; [exact Hb|]. split; [exact Hc|].
    split; [exact Hd|]. split; [exact Hf|]. split; [exact Hy1 | exact Hy2].
Qed.

Lemma destroy_takes_down_witness :
  let st := directed_headers no_conversion in
  click_handlers st = 1%nat
  /\ map (fun c => spans (col_el c)) (columns st)
     = [[sort_icon; ["direction"]]; [sort_icon; ["direction"]]]
  /\ click_handlers (destroy st) = 0%nat
  /\ map (fun c => spans (col_el c)) (columns (destroy st))
     = [[sort_icon]; [sort_icon]]
  /\ Forall (fun c => Forall (fun sp => hasClass "direction" sp = false)
                        (spans (col_el c)))
       (columns (destroy st)).
Proof.
  intros st.
  destruct (destroy_takes_down st eq_refl) as (Hk & _ & Hcols & _).
  split; [reflexivity|]. split; [vm_compute; reflexivity|].
  split; [exact Hk|]. split; [vm_compute; reflexivity|].
  apply Forall_forall. intros c' Hc'.
  apply list_elem_of_lookup in Hc' as (i & Hi).
  destruct (Forall2_lookup_r _ _ _ _ _ Hcols Hi)
    as (c & Hc & _ & _ & _ & _ & _ & Hs & _).
  apply Hs.
  assert (Hall : forallb (fun x => hasClass "footable-sortable" (classes (col_el x)))
                   (columns st) = true) by (vm_compute; reflexivity).
  rewrite forallb_forall in Hall. apply Hall.
  apply list_elem_of_In, list_elem_of_lookup. exists i. exact Hc.
Defined.

(** X10.  With sorting enabled, [reinit] leaves no header with
    ['footable-sortable'], which only [ctor_column] adds, and gives the
    header of every sortable column one more icon, after the child spans
    [destroy] kept: a header that had the icon of [init] has two. *)
Theorem reinit_adds_an_icon (st : FT) (i : nat) (c : Column) :
  enabled (o st) = true ->
  columns st !! i = Some c ->
  exists c' kept,
    columns (reinit st) !! i = Some c'
    /\ same_column c c'
    /\ hasClass "footable-sortable" (classes (col_el c')) = false
    /\ spans (col_el c')
       = (kept ++ if col_sortable c then [sort_icon] else [])%list
    /\ (forall sp, sp ∈ spans (col_el c) -> hasClass "direction" sp = false ->
          sp ∈ kept)
    /\ (forall sp, sp ∈ kept -> sp ∈ spans (col_el c)).
Proof.
  intros He Hc.
  destruct (destroy_takes_down_aux st He) as (_ & Hno & Hcols & Ho & _).
  destruct (Forall2_lookup_l _ _ _ _ _ Hcols Hc)
    as (c1 & Hc1 & Hsame & _ & _ & Hkeep & Hfrom).
  pose proof (proj1 (Forall_lookup _ _) Hno _ _ Hc1) as Hno1.
  unfold reinit. rewrite Ho, He. cbn [negb].
  destruct (_generate_shape (destroy st)) as (_ & Hg & _).
  cbn [columns raise set_events]. rewrite Hg. clear Hg.
  rewrite list_lookup_fmap, (each_direction_at _ _ _ _ _ Hc1).
  cbn [fmap option_fmap option_map].
  destruct Hsame as (Hn & Hi & Hs & Hsb & Hsd).
  cbn [col_sortable set_direction]. rewrite Hsb.
  destruct (col_sortable c) eqn:Hsc.
  - eexists _, (spans (col_el c1)). split; [reflexivity|].
    unfold same_column.
    cbn [col_name col_index col_sorter col_sortable col_sorted col_el
         set_el set_direction classes spans].
    repeat split; auto; congruence.
  - eexists _, (spans (col_el c1)). split; [reflexivity|].
    unfold same_column.
    cbn [col_name col_index col_sorter col_sortable col_sorted col_el
         set_el set_direction classes spans].
    rewrite app_nil_r. repeat split; auto; congruence.
Qed.

Lemma reinit_adds_an_icon_witness :
  let st := price_table no_conversion true false in
  map (fun c => spans (col_el c)) (columns st) = [[sort_icon]; [sort_icon]]
  /\ map (fun c => spans (col_el c)) (columns (reinit st))
     = [[sort_icon; sort_icon]; [sort_icon; sort_icon]]
  /\ exists c', columns (reinit st) !! 1%nat = Some c'
                /\ hasClass "footable-sortable" (classes (col_el c')) = false.
Proof.
  intros st.
  assert (Hc : columns st !! 1%nat
               = Some (default (blank_column EmptyString 0) (columns st !! 1%nat)))
    by reflexivity.
  destruct (reinit_adds_an_icon st 1 _ eq_refl Hc)
    as (c' & kept & Hc' & _ & Hno & _).
  split; [vm_compute; reflexivity|]. split; [vm_compute; reflexivity|].
  exists c'. split; [exact Hc' | exact Hno].
Defined.

(** ** [_sort]: what a call can and cannot change *)

Lemma Forall2_imap_right {A B : Type} (R : A -> B -> Prop) (R' : A -> B -> Prop)
    (f : nat -> B -> B) (l : list A) (k : list B) :
  Forall2 R l k ->
  (forall i x y, R x y -> R' x (f i y)) ->
  Forall2 R' l (imap f k).
Proof.
  intros H. revert f. induction H as [|x y l k Hxy H IH]; intros f Hf; simpl.
  - constructor.
  - constructor; [apply Hf; exact Hxy|].
    apply IH. intros i. apply Hf.
Qed.

Lemma draw_state (st st' : FT) :
  draw st = Ok st' -> st' = set_columns st (columns st').
Proof.
  unfold draw. intros H.
  destruct (negb (enabled (o st)) || falsy_column (column (o st))
            || falsy_direction (direction (o st))).
  - injection H as <-. destruct st; reflexivity.
  - destruct (column (o st)); try discriminate.
    destruct (h <? length (columns st))%nat; try discriminate.
    injection H as <-. reflexivity.
Qed.

(** A refresh that returns ends in a [draw], on the columns and options it
    started from. *)
Lemma update_ends_in_draw (st st' : FT) :
  update st = Ok st' ->
  exists stx,
    draw stx = Ok st'
    /\ columns stx = columns st /\ o stx = o st
    /\ ajaxEnabled stx = ajaxEnabled st
    /\ options_sorters stx = options_sorters st
    /\ table_classes stx = table_classes st
    /\ click_handlers stx = click_handlers st
    /\ listeners stx = listeners st
    /\ rows stx ≡ₚ rows st.
Proof.
  unfold update. intros H.
  destruct (ajaxEnabled st) eqn:Ha.
  - destruct (preajax st new_RequestData) as [data|]; [|discriminate].
    cbn [bind] in H.
    destruct (predraw _) as [st2|] eqn:Hp; [|discriminate]. cbn [bind] in H.
    apply predraw_keeps_the_rows_aux in Hp as (Hperm & Heq).
    exists st2. split; [exact H|].
    split; [rewrite Heq; reflexivity|]. split; [rewrite Heq; reflexivity|].
    split; [rewrite Heq; cbn; exact Ha|].
    split; [rewrite Heq; reflexivity|]. split; [rewrite Heq; reflexivity|].
    split; [rewrite Heq; reflexivity|]. split; [rewrite Heq; reflexivity|].
    exact Hperm.
  - destruct (predraw st) as [st1|] eqn:Hp; [|discriminate]. cbn [bind] in H.
    apply predraw_keeps_the_rows_aux in Hp as (Hperm & Heq).
    exists st1. split; [exact H|].
    split; [rewrite Heq; reflexivity|]. split; [rewrite Heq; reflexivity|].
    split; [rewrite Heq; cbn; exact Ha|].
    split; [rewrite Heq; reflexivity|]. split; [rewrite Heq; reflexivity|].
    split; [rewrite Heq; reflexivity|]. split; [rewrite Heq; reflexivity|].
    exact Hperm.
Qed.

(** X11.  Whatever its arguments and however it ends, a call of [_sort]
    keeps the [enabled] flag, the data source, the registry of sorters, the
    listeners, the classes of the table and the click handlers; it keeps
    the rows up to their order; and it keeps every column in its place with
    its name, index, sorter and flags.  Either it leaves the committed
    column and direction as they were, or the committed direction is "ASC"
    or "DESC" and the committed column is [null] or a column of the
    table. *)
Theorem _sort_keeps (st : FT) (col : colref) (dir : value) (redraw : bool) :
  let st' := fst (_sort st col dir redraw) in
  enabled (o st') = enabled (o st)
  /\ ajaxEnabled st' = ajaxEnabled st
  /\ options_sorters st' = options_sorters st
  /\ listeners st' = listeners st
  /\ table_classes st' = table_classes st
  /\ click_handlers st' = click_handlers st
  /\ rows st' ≡ₚ rows st
  /\ Forall2 same_column (columns st) (columns st')
  /\ ((column (o st') = column (o st) /\ direction (o st') = direction (o st))
      \/ ((direction (o st') = Some "ASC" \/ direction (o st') = Some "DESC")
          /\ (column (o st') = CNull
              \/ exists h, column (o st') = CColumn h
                           /\ (h < length (columns st'))%nat))).
Proof.
  intros st'. subst st'.
  assert (Hsame : Forall2 same_column (columns st) (columns st)).
  { apply Forall_Forall2_diag, Forall_forall. intros c _.
    unfold same_column. repeat split. }
  destruct (run_listeners (listeners st) (new_Sorter st col dir)) as [s p] eqn:Hl.
  destruct p.
  { rewrite _sort_cancelled by (rewrite Hl; reflexivity). cbn.
    repeat split; auto. }
  rewrite (_sort_applied _ _ _ _ _ Hl).
  assert (Hdir : direction (o (committed st col dir s)) = Some "ASC"
                 \/ direction (o (committed st col dir s)) = Some "DESC").
  { cbn. destruct (_direction_literal (s_direction s)) as [-> | ->]; auto. }
  assert (Hcol : column (o (committed st col dir s)) = CNull
                 \/ exists h, column (o (committed st col dir s)) = CColumn h
                              /\ (h < length (columns st))%nat).
  { cbn. destruct (columns_get_resolved (columns st) (s_column s))
      as [-> | (h & -> & Hh)]; eauto. }
  assert (Hdone : forall st3,
             o st3 = o (committed st col dir s) ->
             ajaxEnabled st3 = ajaxEnabled st ->
             options_sorters st3 = options_sorters st ->
             listeners st3 = listeners st ->
             table_classes st3 = table_classes st ->
             click_handlers st3 = click_handlers st ->
             rows st3 ≡ₚ rows st ->
             Forall2 same_column (columns st) (columns st3) ->
             let st' := raise (set_columns st3
                                 (each_direction (column (o st3))
                                    (direction (o st3)) (columns st3)))
                          "changed.ft.sorting" [s] in
             enabled (o st') = enabled (o st)
             /\ ajaxEnabled st' = ajaxEnabled st
             /\ options_sorters st' = options_sorters st
             /\ listeners st' = listeners st
             /\ table_classes st' = table_classes st
             /\ click_handlers st' = click_handlers st
             /\ rows st' ≡ₚ rows st
             /\ Forall2 same_column (columns st) (columns st')
             /\ ((column (o st') = column (o st)
                  /\ direction (o st') = direction (o st))
                 \/ ((direction (o st') = Some "ASC"
                      \/ direction (o st') = Some "DESC")
                     /\ (column (o st') = CNull
                         \/ exists h, column (o st') = CColumn h
                                      /\ (h < length (columns st'))%nat)))).
  { intros st3 Ho Ha Hr Hls Ht Hk Hrows Hcols st'. subst st'.
    cbn [o ajaxEnabled options_sorters listeners table_classes click_handlers
         rows columns raise set_events set_columns].
    rewrite Ho.
    split; [reflexivity|]. repeat (split; [assumption|]).
    split.
    - apply (Forall2_imap_right same_column); [exact Hcols|].
      intros i x y Hxy. destruct (is_column _ i); exact Hxy.
    - right. split; [exact Hdir|].
      destruct Hcol as [E | (h & E & Hh)]; [left; exact E|].
      right. exists h. split; [exact E|].
      rewrite each_direction_length, <- (Forall2_length _ _ _ Hcols). exact Hh. }
  destruct redraw.
  - destruct (update (committed st col dir s)) as [st3|e] eqn:Hu.
    + apply update_ends_in_draw in Hu
        as (stx & Hd & Hxc & Hxo & Hxa & Hxr & Hxt & Hxk & Hxl & Hxrows).
      pose proof (draw_columns _ _ Hd) as Hel.
      pose proof (draw_state _ _ Hd) as Hst. apply Hdone.
      * rewrite Hst. exact Hxo.
      * rewrite Hst. exact Hxa.
      * rewrite Hst. exact Hxr.
      * rewrite Hst. exact Hxl.
      * rewrite Hst. exact Hxt.
      * rewrite Hst. exact Hxk.
      * rewrite Hst. exact Hxrows.
      * rewrite Hxc in Hel. cbn [columns committed set_o raise set_events] in Hel.
        eapply Forall2_impl; [exact Hel|].
        intros x y ->. unfold same_column. repeat split.
    + cbn. repeat split; auto.
  - apply Hdone; try reflexivity. exact Hsame.
Qed.

(** ** [draw]: the marks on the headers *)

Lemma draw_at (st st' : FT) (h : nat) (d : string) (i : nat) (c : Column) :
  enabled (o st) = true ->
  column (o st) = CColumn h ->
  direction (o st) = Some d ->
  d <> EmptyString ->
  draw st = Ok st' ->
  columns st !! i = Some c ->
  hasClass "footable-sortable" (classes (col_el c)) = true ->
  let asc := String.eqb d "ASC" in
  let clear (sp : list string) :=
    removeClass "fooicon-sort-desc"
      (removeClass "fooicon-sort-asc" (removeClass "fooicon-sort" sp)) in
  let cleared :=
    removeClass "footable-desc" (removeClass "footable-asc" (classes (col_el c))) in
  columns st' !! i
  = Some (set_el c
            (if (i =? h)%nat
             then {| classes :=
                       addClass (if asc then "footable-asc" else "footable-desc")
                         cleared;
                     spans :=
                       map (fun sp =>
                              if hasClass "fooicon" sp
                              then addClass (if asc then "fooicon-sort-asc"
                                             else "fooicon-sort-desc") (clear sp)
                              else sp)
                           (spans (col_el c)) |}
             else {| classes := cleared;
                     spans :=
                       map (fun sp =>
                              if hasClass "fooicon" sp
                              then addClass "fooicon-sort" (clear sp)
                              else sp)
                           (spans (col_el c)) |})).
Proof.
  intros He Hc Hd Hne Hdraw Hi Hs asc clear cleared.
  assert (Hfoo : forall sp, hasClass "fooicon" sp = true ->
                            hasClass "fooicon" (clear sp) = true).
  { intros sp Hsp. unfold clear. rewrite !hasClass_removeClass, Hsp. reflexivity. }
  unfold draw in Hdraw. rewrite He, Hc, Hd in Hdraw.
  cbn [negb orb falsy_column falsy_direction] in Hdraw.
  destruct (String.eqb_spec d EmptyString) as [->|_]; [contradiction|].
  destruct (h <? length (columns st))%nat; [|discriminate].
  injection Hdraw as <-. cbn [columns set_columns].
  rewrite list_lookup_imap, Hi. cbn [fmap option_fmap option_map].
  rewrite Hs. cbn [andb is_ASC]. fold asc.
  f_equal. f_equal.
  unfold on_children, on_classes. cbn [classes spans].
  destruct (i =? h)%nat; cbn [negb classes spans]; f_equal; rewrite map_map;
    apply map_ext; intros sp;
    (destruct (hasClass "fooicon" sp) eqn:Hsp;
     [pose proof (Hfoo sp Hsp) as Hf; unfold clear in Hf; rewrite Hf
     | rewrite Hsp]);
    reflexivity.
Qed.

Lemma draw_marks_aux (st st' : FT) (h : nat) (d : string) (i : nat) (c : Column) :
  enabled (o st) = true ->
  column (o st) = CColumn h ->
  direction (o st) = Some d ->
  d <> EmptyString ->
  draw st = Ok st' ->
  columns st !! i = Some c ->
  hasClass "footable-sortable" (classes (col_el c)) = true ->
  exists c',
    columns st' !! i = Some c'
    /\ hasClass "footable-sortable" (classes (col_el c')) = true
    /\ hasClass "footable-asc" (classes (col_el c'))
       = (i =? h)%nat && String.eqb d "ASC"
    /\ hasClass "footable-desc" (classes (col_el c'))
       = (i =? h)%nat && negb (String.eqb d "ASC")
    /\ Forall (fun sp =>
                 hasClass "fooicon" sp = true ->
                 hasClass "fooicon-sort" sp = negb (i =? h)%nat
                 /\ hasClass "fooicon-sort-asc" sp
                    = (i =? h)%nat && String.eqb d "ASC"
                 /\ hasClass "fooicon-sort-desc" sp
                    = (i =? h)%nat && negb (String.eqb d "ASC"))
         (spans (col_el c')).
Proof.
  intros He Hc Hd Hne Hdraw Hi Hs.
  pose proof (draw_at st st' h d i c He Hc Hd Hne Hdraw Hi Hs) as Hat.
  cbv zeta in Hat. eexists. split; [exact Hat|].
  cbn [col_el set_el].
  destruct (i =? h)%nat, (String.eqb d "ASC"); cbn [classes spans andb negb];
    rewrite ?hasClass_addClass, ?hasClass_removeClass, ?Hs;
    (split; [reflexivity|]); (split; [reflexivity|]); (split; [reflexivity|]);
    apply Forall_fmap, Forall_forall; intros sp _; cbn [compose];
    destruct (hasClass "fooicon" sp) eqn:Hsp;
    rewrite ?hasClass_addClass, ?hasClass_removeClass, ?Hsp;
    intros Hf; try discriminate Hf; repeat split.
Qed.

(** X12.  With sorting enabled, a resolved column and a direction, [draw]
    leaves on every header that carries ['footable-sortable'] exactly the
    mark of the state: the header of the sorted column has
    ['footable-asc'] when the direction is "ASC" and ['footable-desc']
    otherwise, never both, and every other such header has neither.  The
    icons follow: a child span of class ['fooicon'] has
    ['fooicon-sort-asc'] or ['fooicon-sort-desc'] under the sorted column
    and ['fooicon-sort'] elsewhere, and none of the other two. *)
Theorem draw_marks (st st' : FT) (h : nat) (d : string) (i : nat) (c : Column) :
  enabled (o st) = true ->
  column (o st) = CColumn h ->
  direction (o st) = Some d ->
  d <> EmptyString ->
  draw st = Ok st' ->
  columns st !! i = Some c ->
  hasClass "footable-sortable" (classes (col_el c)) = true ->
  exists c',
    columns st' !! i = Some c'
    /\ hasClass "footable-sortable" (classes (col_el c')) = true
    /\ hasClass "footable-asc" (classes (col_el c'))
       = (i =? h)%nat && String.eqb d "ASC"
    /\ hasClass "footable-desc" (classes (col_el c'))
       = (i =? h)%nat && negb (String.eqb d "ASC")
    /\ Forall (fun sp =>
                 hasClass "fooicon" sp = true ->
                 hasClass "fooicon-sort" sp = negb (i =? h)%nat
                 /\ hasClass "fooicon-sort-asc" sp
                    = (i =? h)%nat && String.eqb d "ASC"
                 /\ hasClass "fooicon-sort-desc" sp
                    = (i =? h)%nat && negb (String.eqb d "ASC"))
         (spans (col_el c')).
Proof. exact (draw_marks_aux st st' h d i c). Qed.

Lemma draw_marks_witness :
  let st := price_descending no_conversion in
  exists st' c',
    draw st = Ok st'
    /\ columns st' !! 1%nat = Some c'
    /\ hasClass "footable-desc" (classes (col_el c')) = true
    /\ hasClass "footable-asc" (classes (col_el c')) = false.
Proof.
  intros st.
  destruct (draw_resolved st 1 eq_refl) as (st' & Hd); [simpl; lia|].
  assert (Hc : columns st !! 1%nat
               = Some (default (blank_column EmptyString 0) (columns st !! 1%nat)))
    by reflexivity.
  destruct (draw_marks st st' 1 "DESC" 1 _ eq_refl eq_refl eq_refl
              ltac:(discriminate) Hd Hc eq_refl)
    as (c' & Hc' & _ & Hasc & Hdesc & _).
  exists st', c'. repeat split; assumption.
Defined.

(** ** A click reverses what the next click asks for *)

(** X13.  On a table with sorting enabled, a click on a header that carries
    ['footable-sortable'], which no listener cancels or rewrites and whose
    refresh returns, leaves the header marked with the direction it asked
    for; so the next click on that header asks for the other direction, and
    the column of the header is the sorted column. *)
Theorem click_reverses_the_next (st : FT) (i : nat) (c : Column) :
  enabled (o st) = true ->
  columns st !! i = Some c ->
  hasClass "footable-sortable" (classes (col_el c)) = true ->
  let asked := clicked_direction (classes (col_el c)) in
  run_listeners (listeners st) (new_Sorter st (CIndex i) (VString asked))
  = (new_Sorter st (CIndex i) (VString asked), false) ->
  snd (_onSortClicked st i) = Resolved ->
  let st' := fst (_onSortClicked st i) in
  exists c',
    columns st' !! i = Some c'
    /\ column (o st') = CColumn i
    /\ direction (o st') = Some asked
    /\ col_direction c' = Some asked
    /\ hasClass "footable-sortable" (classes (col_el c')) = true
    /\ clicked_direction (classes (col_el c'))
       = (if String.eqb asked "ASC" then "DESC" else "ASC").
Proof.
  intros He Hc Hs asked Hl Hr st'. subst st'.
  unfold _onSortClicked in *. rewrite Hc in *. fold asked in Hr |- *.
  assert (Hlit : asked = "ASC" \/ asked = "DESC").
  { subst asked. unfold clicked_direction.
    destruct (hasClass "footable-asc" _ || hasClass "footable-desc" _);
      [destruct (hasClass "footable-desc" _)|]; auto. }
  assert (Hdir : _direction (VString asked) = asked)
    by (destruct Hlit as [-> | ->]; reflexivity).
  assert (Hne : asked <> EmptyString)
    by (destruct Hlit as [-> | ->]; discriminate).
  assert (Hlt : (i < length (columns st))%nat)
    by (eapply lookup_lt_Some; exact Hc).
  assert (Hget : columns_get (columns st) (CIndex i) = CColumn i).
  { simpl. apply Nat.ltb_lt in Hlt. rewrite Hlt. reflexivity. }
  rewrite (_sort_applied _ _ _ _ _ Hl) in Hr |- *.
  set (st2 := committed st (CIndex i) (VString asked)
                (new_Sorter st (CIndex i) (VString asked))) in *.
  assert (Ho2 : o st2 = {| enabled := true; column := CColumn i;
                           direction := Some asked |}).
  { subst st2. unfold committed, new_Sorter. cbn [o set_o s_column s_direction].
    rewrite columns_get_idempotent, Hget, _direction_idempotent, Hdir, He.
    reflexivity. }
  destruct (update st2) as [st3|e] eqn:Hu; [|discriminate Hr].
  apply update_ends_in_draw in Hu as (stx & Hd & Hxc & Hxo & _).
  assert (Hcx : columns stx !! i = Some c) by (rewrite Hxc; exact Hc).
  rewrite Ho2 in Hxo.
  destruct (draw_marks_aux stx st3 i asked i c) as (c3 & Hc3 & Hs3 & Ha3 & Hd3 & _);
    try (rewrite Hxo; reflexivity); try assumption.
  pose proof (draw_state _ _ Hd) as Hst3.
  assert (Ho3 : o st3 = o stx) by (rewrite Hst3; reflexivity).
  cbn [fst columns o raise set_events set_columns].
  rewrite Ho3, Hxo. cbn [column direction].
  rewrite (each_direction_at _ _ _ _ _ Hc3).
  eexists. split; [reflexivity|].
  cbn [col_direction col_el set_direction is_column]. rewrite Nat.eqb_refl.
  repeat split; [exact Hs3|].
  unfold clicked_direction. rewrite Ha3, Hd3, Nat.eqb_refl. cbn [andb].
  destruct (String.eqb asked "ASC"); reflexivity.
Qed.

Lemma click_reverses_the_next_witness :
  let st := price_table no_conversion true false in
  let st1 := fst (_onSortClicked st 1) in
  exists c1,
    columns st1 !! 1%nat = Some c1
    /\ direction (o st1) = Some "ASC"
    /\ clicked_direction (classes (col_el c1)) = "DESC".
Proof.
  intros st st1.
  assert (Hc : columns st !! 1%nat
               = Some (default (blank_column EmptyString 0) (columns st !! 1%nat)))
    by reflexivity.
  assert (Hl : run_listeners (listeners st)
                 (new_Sorter st (CIndex 1) (VString "ASC"))
               = (new_Sorter st (CIndex 1) (VString "ASC"), false))
    by (vm_compute; reflexivity).
  assert (Hr : snd (_onSortClicked st 1) = Resolved) by (vm_compute; reflexivity).
  destruct (click_reverses_the_next st 1 _ eq_refl Hc eq_refl Hl Hr)
    as (c1 & Hc1 & _ & Hd & _ & _ & Hnext).
  exists c1. split; [exact Hc1|]. split; [exact Hd | exact Hnext].
Defined.

(** ** [sort] on local data, from the call to the rows *)

Lemma sorted_rows_adjacent
    (st : FT) (h : nat) (col : Column) (f : sorter_fn) (vals : list value)
    (l : list Row) :
  column (o st) = CColumn h ->
  columns st !! h = Some col ->
  col_sorter col = Some f ->
  consistent f vals ->
  Forall (fun r => exists v, cells r !! col_index col = Some v /\ v ∈ vals) l ->
  Sorted (before (predraw_compare st)) l ->
  forall i a b,
    l !! i = Some a -> l !! S i = Some b ->
    exists va vb,
      cells a !! col_index col = Some va
      /\ cells b !! col_index col = Some vb
      /\ if is_ASC (direction (o st))
         then le_zero (f va vb)
         else le_zero (f vb va) /\ ge_zero (f va vb).
Proof.
  intros Hc Hcol Hf [Hsgn _] HP Hsorted i a b Hia Hib.
  destruct (proj1 (Forall_lookup _ _) HP _ _ Hia) as (va & Hva & Hina).
  destruct (proj1 (Forall_lookup _ _) HP _ _ Hib) as (vb & Hvb & Hinb).
  exists va, vb. split; [exact Hva|]. split; [exact Hvb|].
  destruct (Sorted_adjacent _ _ _ _ _ Hsorted Hia Hib) as (n & Hn & Hle).
  rewrite (predraw_compare_cells st h col f a b va vb) in Hn by assumption.
  destruct (Hsgn va vb Hina Hinb) as (p & q & Hp & Hq & Hpq).
  destruct (is_ASC (direction (o st))); injection Hn as <-;
    rewrite ?Hp, ?Hq in *; simpl in *; repeat split; lia.
Qed.

(** What a call of [_sort] with a refresh comes to on local data, when the
    listeners leave the sorter alone and the column resolves. *)
Lemma _sort_local
    (st : FT) (ref : colref) (dir : value) (h : nat) (col : Column)
    (f : sorter_fn) (vals : list value) :
  enabled (o st) = true ->
  ajaxEnabled st = false ->
  columns_get (columns st) ref = CColumn h ->
  columns st !! h = Some col ->
  col_sorter col = Some f ->
  column_values (col_index col) (rows st) = Some vals ->
  consistent f vals ->
  run_listeners (listeners st) (new_Sorter st ref dir)
  = (new_Sorter st ref dir, false) ->
  exists l' st3,
    _sort st ref dir true
    = (raise (set_columns st3
                (each_direction (CColumn h) (Some (_direction dir)) (columns st3)))
         "changed.ft.sorting" [new_Sorter st ref dir], Resolved)
    /\ rows st3 = l'
    /\ l' ≡ₚ rows st
    /\ Sorted (before (predraw_compare
                         (committed st ref dir (new_Sorter st ref dir)))) l'
    /\ o st3 = {| enabled := true; column := CColumn h;
                  direction := Some (_direction dir) |}
    /\ ajaxEnabled st3 = false
    /\ listeners st3 = listeners st
    /\ Forall2 (fun c c' => c' = set_el c (col_el c')) (columns st) (columns st3).
Proof.
  intros He Ha Hget Hcol Hf Hvals Hcons Hl.
  rewrite (_sort_applied _ _ _ _ _ Hl).
  set (st2 := committed st ref dir (new_Sorter st ref dir)).
  assert (Ho2 : o st2 = {| enabled := true; column := CColumn h;
                           direction := Some (_direction dir) |}).
  { subst st2. unfold committed, new_Sorter. cbn [o set_o s_column s_direction].
    rewrite columns_get_idempotent, Hget, _direction_idempotent, He.
    reflexivity. }
  assert (Hne : _direction dir <> EmptyString)
    by (destruct (_direction_literal dir) as [-> | ->]; discriminate).
  assert (Hlt : (h < length (columns st))%nat)
    by (eapply lookup_lt_Some; exact Hcol).
  destruct (predraw_sorted_rows st2 h col f (_direction dir) vals)
    as (l' & Hp & Hperm & Hsorted);
    try (rewrite Ho2; reflexivity); try assumption;
    try exact Ha; try exact Hcol; try exact Hvals.
  unfold update. change (ajaxEnabled st2) with (ajaxEnabled st).
  rewrite Ha, Hp. cbn [bind].
  destruct (draw_resolved (set_rows st2 l') h) as (st3 & Hd);
    [cbn [o set_rows]; rewrite Ho2; reflexivity | exact Hlt |].
  rewrite Hd.
  pose proof (draw_columns _ _ Hd) as Hcols.
  apply draw_frame in Hd as (Ho3 & Ha3 & Hr3 & _ & _ & Hl3 & _).
  cbn [o set_rows] in Ho3. rewrite Ho2 in Ho3.
  exists l', st3. rewrite Ho3. cbn [column direction].
  split; [reflexivity|]. split; [exact Hr3|]. split; [exact Hperm|].
  split; [exact Hsorted|]. split; [reflexivity|].
  split; [rewrite Ha3; exact Ha|]. split; [exact Hl3 | exact Hcols].
Qed.

(** X14.  On local data with sorting enabled, a call of [sort] by a
    reference that resolves to a column whose sorter is a consistent
    comparator on the cells of the column, which no listener cancels or
    rewrites, ends with a resolved promise and leaves the rows a
    permutation of what they were, in order: every adjacent pair [(a, b)]
    has [sorter(a.value, b.value) <= 0] when the normalised direction is
    "ASC", and [sorter(b.value, a.value) <= 0], hence
    [sorter(a.value, b.value) >= 0], when it is "DESC". *)
Theorem sort_orders_the_rows
    (st : FT) (ref : colref) (dir : value) (h : nat) (col : Column)
    (f : sorter_fn) (vals : list value) :
  enabled (o st) = true ->
  ajaxEnabled st = false ->
  columns_get (columns st) ref = CColumn h ->
  columns st !! h = Some col ->
  col_sorter col = Some f ->
  column_values (col_index col) (rows st) = Some vals ->
  consistent f vals ->
  run_listeners (listeners st) (new_Sorter st ref dir)
  = (new_Sorter st ref dir, false) ->
  let st' := fst (sort st ref dir) in
  snd (sort st ref dir) = Resolved
  /\ rows st' ≡ₚ rows st
  /\ forall i a b,
       rows st' !! i = Some a -> rows st' !! S i = Some b ->
       exists va vb,
         cells a !! col_index col = Some va
         /\ cells b !! col_index col = Some vb
         /\ if String.eqb (_direction dir) "ASC"
            then le_zero (f va vb)
            else le_zero (f vb va) /\ ge_zero (f va vb).
Proof.
  intros He Ha Hget Hcol Hf Hvals Hcons Hl st'. subst st'. unfold sort.
  destruct (_sort_local st ref dir h col f vals He Ha Hget Hcol Hf Hvals Hcons Hl)
    as (l' & st3 & -> & Hrows & Hperm & Hsorted & _).
  cbn [fst snd rows raise set_events set_columns]. rewrite Hrows.
  split; [reflexivity|]. split; [exact Hperm|].
  assert (HP : Forall (fun r => exists v, cells r !! col_index col = Some v
                                          /\ v ∈ vals) l')
    by (rewrite Hperm; apply column_values_cells; exact Hvals).
  pose proof (sorted_rows_adjacent
                (committed st ref dir (new_Sorter st ref dir)) h col f vals l')
    as Hadj.
  cbn [o committed set_o column direction columns raise set_events
       new_Sorter s_column s_direction is_ASC] in Hadj.
  rewrite columns_get_idempotent, Hget, _direction_idempotent in Hadj.
  apply Hadj; auto.
Qed.

Lemma sort_orders_the_rows_witness :
  let st := names_table no_conversion in
  snd (sort st (CName "v") (VString "ASC")) = Resolved
  /\ rows (fst (sort st (CName "v") (VString "ASC"))) ≡ₚ rows st.
Proof.
  intros st.
  assert (Hcol : columns st !! 0%nat
                 = Some (default (blank_column EmptyString 0) (columns st !! 0%nat)))
    by reflexivity.
  assert (Hl : run_listeners (listeners st)
                 (new_Sorter st (CName "v") (VString "ASC"))
               = (new_Sorter st (CName "v") (VString "ASC"), false))
    by (vm_compute; reflexivity).
  assert (Hcons : consistent (text no_conversion)
                    [VString "Bob"; VString "alice"; VString "Carl"])
    by (apply consistentb_sound; vm_compute; reflexivity).
  destruct (sort_orders_the_rows st (CName "v") (VString "ASC") 0 _
              (text no_conversion)
              [VString "Bob"; VString "alice"; VString "Carl"]
              eq_refl eq_refl eq_refl Hcol eq_refl eq_refl Hcons Hl)
    as (Hr & Hp & _).
  split; [exact Hr | exact Hp].
Defined.

Lemma find_index_Forall2 {A : Type} (p q : A -> bool) (l k : list A) :
  Forall2 (fun x y => p x = q y) l k -> find_index p l = find_index q k.
Proof.
  induction 1 as [|x y l k Hxy H IH]; simpl; [reflexivity|].
  rewrite Hxy, IH. reflexivity.
Qed.

Lemma columns_get_same (cols cols' : list Column) (ref : colref) :
  Forall2 same_column cols cols' ->
  columns_get cols' ref = columns_get cols ref.
Proof.
  intros H. pose proof (Forall2_length _ _ _ H) as Hlen.
  destruct ref as [|s|n|h]; simpl; rewrite <- ?Hlen; try reflexivity.
  rewrite (find_index_Forall2 (fun col => String.eqb (col_name col) s)
             (fun col => String.eqb (col_name col) s) cols cols');
    [reflexivity|].
  eapply Forall2_impl; [exact H|]. intros x y (Hn & _). rewrite Hn. reflexivity.
Qed.

Lemma sort_insert_ext {A : Type} (c1 c2 : A -> A -> result jsnum)
    (x : A) (l : list A) :
  (forall a b, c1 a b = c2 a b) ->
  sort_insert c1 x l = sort_insert c2 x l.
Proof.
  intros H. induction l as [|y l IH]; simpl; [reflexivity|].
  rewrite H, IH. reflexivity.
Qed.

Lemma array_sort_ext {A : Type} (c1 c2 : A -> A -> result jsnum) (l : list A) :
  (forall a b, c1 a b = c2 a b) -> array_sort c1 l = array_sort c2 l.
Proof.
  intros H. induction l as [|x l IH]; simpl; [reflexivity|].
  rewrite IH. destruct (array_sort c2 l); [|reflexivity]. cbn [bind].
  apply sort_insert_ext. exact H.
Qed.

Lemma predraw_compare_ext (st sa : FT) (h : nat) (c ca : Column) :
  column (o st) = CColumn h -> column (o sa) = CColumn h ->
  direction (o sa) = direction (o st) ->
  columns st !! h = Some c -> columns sa !! h = Some ca ->
  col_index ca = col_index c -> col_sorter ca = col_sorter c ->
  forall a b, predraw_compare sa a b = predraw_compare st a b.
Proof.
  intros Hc Hca Hd Hl Hla Hi Hs a b. unfold predraw_compare.
  rewrite Hc, Hca, Hl, Hla, Hi, Hs, Hd. reflexivity.
Qed.

(** X15.  Sorting twice is sorting once.  Under the conditions of the
    property before (local data, sorting enabled, a reference that resolves
    to a column whose sorter is a consistent comparator on its cells, no
    listener that cancels or rewrites), a second call of [sort] with the
    same arguments, on the state the first one left, ends with a resolved
    promise and leaves the rows and the committed column and direction
    exactly as the first call left them. *)
Theorem sort_twice
    (st : FT) (ref : colref) (dir : value) (h : nat) (col : Column)
    (f : sorter_fn) (vals : list value) :
  enabled (o st) = true ->
  ajaxEnabled st = false ->
  columns_get (columns st) ref = CColumn h ->
  columns st !! h = Some col ->
  col_sorter col = Some f ->
  column_values (col_index col) (rows st) = Some vals ->
  consistent f vals ->
  run_listeners (listeners st) (new_Sorter st ref dir)
  = (new_Sorter st ref dir, false) ->
  let st1 := fst (sort st ref dir) in
  let st2 := fst (sort st1 ref dir) in
  snd (sort st1 ref dir) = Resolved
  /\ rows st2 = rows st1
  /\ o st2 = o st1
  /\ map col_direction (columns st2) = map col_direction (columns st1).
Proof.
  intros He Ha Hget Hcol Hf Hvals Hcons Hl st1 st2. subst st2 st1. unfold sort.
  destruct (_sort_local st ref dir h col f vals He Ha Hget Hcol Hf Hvals Hcons Hl)
    as (l' & st3 & -> & Hrows & Hperm & Hsorted & Ho3 & Ha3 & Hl3 & Hcols3).
  cbn [fst].
  set (d := _direction dir) in *.
  set (st1 := raise _ _ _).
  assert (Hsame : Forall2 same_column (columns st) (columns st1)).
  { subst st1. cbn [columns raise set_events set_columns].
    apply (Forall2_imap_right (fun c c' => c' = set_el c (col_el c')));
      [exact Hcols3|].
    intros i x y ->. unfold same_column.
    destruct (is_column _ i); repeat split. }
  assert (Hns : new_Sorter st1 ref dir = new_Sorter st ref dir).
  { unfold new_Sorter. rewrite (columns_get_same _ _ ref Hsame). reflexivity. }
  assert (Hl1 : run_listeners (listeners st1) (new_Sorter st1 ref dir)
                = (new_Sorter st1 ref dir, false)).
  { rewrite Hns. subst st1. cbn [listeners raise set_events set_columns].
    rewrite Hl3. exact Hl. }
  assert (Hlt : (h < length (columns st))%nat)
    by (eapply lookup_lt_Some; exact Hcol).
  destruct (Forall2_lookup_l _ _ _ _ _ Hsame Hcol)
    as (col1 & Hcol1 & _ & Hi1 & Hs1 & _).
  rewrite (_sort_applied _ _ _ _ _ Hl1).
  set (sa := committed st1 ref dir (new_Sorter st1 ref dir)).
  assert (Hoa : o sa = {| enabled := true; column := CColumn h;
                          direction := Some d |}).
  { subst sa. unfold committed. cbn [o set_o].
    rewrite Hns. unfold new_Sorter. cbn [s_column s_direction].
    rewrite (columns_get_same _ _ _ Hsame), columns_get_idempotent, Hget,
      _direction_idempotent.
    subst st1. cbn [o raise set_events set_columns]. rewrite Ho3. reflexivity. }
  assert (Hpa : predraw sa = Ok sa).
  { unfold predraw. rewrite Hoa.
    change (ajaxEnabled sa) with (ajaxEnabled st3). rewrite Ha3.
    cbn [enabled column direction negb orb falsy_column falsy_direction].
    destruct (String.eqb_spec d EmptyString) as [E|_].
    { subst d. destruct (_direction_literal dir) as [E'|E']; rewrite E' in E;
        discriminate E. }
    change (rows sa) with (rows st3). rewrite Hrows.
    rewrite (array_sort_ext (predraw_compare sa)
               (predraw_compare (committed st ref dir (new_Sorter st ref dir)))).
    - rewrite (array_sort_fixed _ _ Hsorted). cbn [bind].
      f_equal. subst sa. unfold committed, set_o, set_rows, raise, set_events.
      cbn. rewrite Hrows. reflexivity.
    - apply (predraw_compare_ext _ sa h col col1); try assumption.
      + cbn [o committed set_o column]. unfold new_Sorter. cbn [s_column].
        rewrite columns_get_idempotent. exact Hget.
      + rewrite Hoa. reflexivity.
      + rewrite Hoa. cbn [o committed set_o direction]. unfold new_Sorter.
        cbn [s_direction]. rewrite _direction_idempotent. reflexivity. }
  unfold update. change (ajaxEnabled sa) with (ajaxEnabled st3).
  rewrite Ha3, Hpa. cbn [bind].
  destruct (draw_resolved sa h) as (sb & Hd);
    [rewrite Hoa; reflexivity
    | change (columns sa) with (columns st1);
      rewrite <- (Forall2_length _ _ _ Hsame); exact Hlt |].
  rewrite Hd.
  pose proof (draw_columns _ _ Hd) as Hcolsb.
  apply draw_frame in Hd as (Hob & _ & Hrb & _).
  cbn [fst snd rows o columns raise set_events set_columns].
  split; [reflexivity|]. split; [rewrite Hrb; reflexivity|].
  split; [rewrite Hob, Hoa; subst st1;
          cbn [o raise set_events set_columns]; rewrite Ho3; reflexivity|].
  rewrite Hob, Hoa. cbn [column direction].
  apply list_eq. intros i. rewrite !list_lookup_fmap.
  change (columns sa) with (columns st1) in Hcolsb.
  subst st1. cbn [columns raise set_events set_columns] in Hcolsb |- *.
  destruct (each_direction (CColumn h) (Some d) (columns st3) !! i)
    as [x|] eqn:Hx.
  - destruct (Forall2_lookup_l _ _ _ _ _ Hcolsb Hx) as (y & Hy & _).
    destruct (each_direction_name (CColumn h) (Some d) _ _ _ Hy) as (z & Hz & _).
    rewrite Hz. cbn [fmap option_fmap option_map]. f_equal.
    rewrite (each_direction_lookup _ _ _ _ _ Hz),
      (each_direction_lookup _ _ _ _ _ Hx). reflexivity.
  - apply lookup_ge_None in Hx.
    rewrite (Forall2_length _ _ _ Hcolsb) in Hx.
    rewrite (proj2 (lookup_ge_None _ _));
      [reflexivity | rewrite each_direction_length; exact Hx].
Qed.

Lemma sort_twice_witness :
  let st := names_table no_conversion in
  let st1 := fst (sort st (CName "v") (VString "ASC")) in
  rows (fst (sort st1 (CName "v") (VString "ASC"))) = rows st1.
Proof.
  intros st st1.
  assert (Hcol : columns st !! 0%nat
                 = Some (default (blank_column EmptyString 0) (columns st !! 0%nat)))
    by reflexivity.
  assert (Hl : run_listeners (listeners st)
                 (new_Sorter st (CName "v") (VString "ASC"))
               = (new_Sorter st (CName "v") (VString "ASC"), false))
    by (vm_compute; reflexivity).
  assert (Hcons : consistent (text no_conversion)
                    [VString "Bob"; VString "alice"; VString "Carl"])
    by (apply consistentb_sound; vm_compute; reflexivity).
  destruct (sort_twice st (CName "v") (VString "ASC") 0 _
              (text no_conversion)
              [VString "Bob"; VString "alice"; VString "Carl"]
              eq_refl eq_refl eq_refl Hcol eq_refl eq_refl Hcons Hl)
    as (_ & Hr & _).
  exact Hr.
Defined.

(** ** [draw] a second time *)

Lemma draw_by_header (st : FT) (h : nat) :
  negb (enabled (o st)) || falsy_column (column (o st))
  || falsy_direction (direction (o st)) = false ->
  column (o st) = CColumn h ->
  (h < length (columns st))%nat ->
  draw st
  = Ok (set_columns st
          (imap (fun i c =>
                   set_el c (draw_header h (is_ASC (direction (o st))) i (col_el c)))
                (columns st))).
Proof.
  intros Hg Hc Hh. unfold draw. rewrite Hg, Hc.
  apply Nat.ltb_lt in Hh. rewrite Hh. reflexivity.
Qed.

Lemma filter_filter_and {A : Type} (p q : A -> bool) (l : list A) :
  List.filter q (List.filter p l) = List.filter (fun x => p x && q x) l.
Proof.
  induction l as [|x l IH]; simpl; [reflexivity|].
  destruct (p x); simpl; [destruct (q x); simpl; rewrite IH|]; auto.
Qed.

Lemma filter_again {A : Type} (p : A -> bool) (l : list A) :
  List.filter p (List.filter p l) = List.filter p l.
Proof.
  induction l as [|x l IH]; simpl; [reflexivity|].
  destruct (p x) eqn:Hx; simpl; rewrite ?Hx, IH; reflexivity.
Qed.

Lemma hasClass_filter (p : string -> bool) (c : string) (l : list string) :
  p c = false -> hasClass c (List.filter p l) = false.
Proof.
  intros Hc. unfold hasClass. induction l as [|x l IH]; simpl; [reflexivity|].
  destruct (p x) eqn:Hx; simpl; [|exact IH].
  rewrite IH. destruct (String.eqb_spec c x) as [->|_]; [congruence | reflexivity].
Qed.

Lemma addClass_filter_again (p : string -> bool) (c : string) (l : list string) :
  p c = false ->
  addClass c (List.filter p (addClass c (List.filter p l)))
  = addClass c (List.filter p l).
Proof.
  intros Hc. unfold addClass at 2. rewrite (hasClass_filter p c l Hc).
  rewrite List.filter_app, filter_again. simpl. rewrite Hc, app_nil_r.
  reflexivity.
Qed.

Lemma addClass_again (c : string) (l : list string) :
  addClass c (addClass c l) = addClass c l.
Proof.
  unfold addClass at 1. rewrite hasClass_addClass, String.eqb_refl. reflexivity.
Qed.

Lemma hasClass_addClass_other (a b : string) (l : list string) :
  String.eqb a b = false -> hasClass a (addClass b l) = hasClass a l.
Proof. intros H. rewrite hasClass_addClass, H. reflexivity. Qed.

Lemma draw_header_closed (h : nat) (asc : bool) (i : nat) (e : Element) :
  draw_header h asc i e
  = {| classes :=
         drawn_classes (hasClass "footable-sortable" (classes e)) (i =? h)%nat
           asc (classes e);
       spans :=
         map (drawn_icon (hasClass "footable-sortable" (classes e)) (i =? h)%nat
                asc)
             (spans e) |}.
Proof.
  assert (Hpc : forall cl, removeClass "footable-desc" (removeClass "footable-asc" cl)
                           = List.filter not_a_mark cl)
    by (intros cl; unfold removeClass; apply filter_filter_and).
  assert (Hps : forall sp, removeClass "fooicon-sort-desc"
                             (removeClass "fooicon-sort-asc"
                                (removeClass "fooicon-sort" sp))
                           = List.filter not_an_icon_mark sp)
    by (intros sp; unfold removeClass; rewrite !filter_filter_and; reflexivity).
  assert (Hfoo : forall sp, hasClass "fooicon"
                              (removeClass "fooicon-sort-desc"
                                 (removeClass "fooicon-sort-asc"
                                    (removeClass "fooicon-sort" sp)))
                            = hasClass "fooicon" sp).
  { intros sp. rewrite !hasClass_removeClass. reflexivity. }
  destruct e as [cl sps]. unfold draw_header, on_children, on_classes,
    drawn_classes, drawn_icon.
  cbn [classes spans].
  destruct (hasClass "footable-sortable" cl);
    destruct (i =? h)%nat; cbn [andb negb classes spans];
    rewrite ?Hpc; f_equal; rewrite ?map_map; try apply map_ext; try intros sp;
    try (destruct (hasClass "fooicon" sp) eqn:Hsp;
         rewrite ?Hfoo, ?Hsp, ?Hps; reflexivity).
  symmetry. transitivity (map (fun x : list string => x) sps);
    [|apply map_id].
  apply map_ext. intros sp. destruct (hasClass "fooicon" sp); reflexivity.
Qed.

Lemma drawn_classes_sortable (sortable here asc : bool) (cl : list string) :
  hasClass "footable-sortable" (drawn_classes sortable here asc cl)
  = hasClass "footable-sortable" cl.
Proof.
  assert (Hf : hasClass "footable-sortable" (List.filter not_a_mark cl)
               = hasClass "footable-sortable" cl).
  { rewrite <- (filter_filter_and
                  (fun x => negb (String.eqb "footable-asc" x))
                  (fun x => negb (String.eqb "footable-desc" x))).
    change (hasClass "footable-sortable"
              (removeClass "footable-desc" (removeClass "footable-asc" cl))
            = hasClass "footable-sortable" cl).
    rewrite !hasClass_removeClass. reflexivity. }
  unfold drawn_classes.
  destruct sortable, here; rewrite ?hasClass_addClass_other, ?Hf;
    try reflexivity; destruct asc; reflexivity.
Qed.

Lemma drawn_classes_again (sortable here asc : bool) (cl : list string) :
  drawn_classes sortable here asc (drawn_classes sortable here asc cl)
  = drawn_classes sortable here asc cl.
Proof.
  unfold drawn_classes. destruct sortable, here.
  - apply addClass_filter_again. destruct asc; reflexivity.
  - apply filter_again.
  - apply addClass_again.
  - reflexivity.
Qed.

Lemma drawn_icon_again (sortable here asc : bool) (sp : list string) :
  drawn_icon sortable here asc (drawn_icon sortable here asc sp)
  = drawn_icon sortable here asc sp.
Proof.
  assert (Hf : forall l, hasClass "fooicon" (List.filter not_an_icon_mark l)
                         = hasClass "fooicon" l).
  { intros l.
    rewrite <- (filter_filter_and
                  (fun x => negb (String.eqb "fooicon-sort" x))
                  (fun x => negb (String.eqb "fooicon-sort-asc" x)
                            && negb (String.eqb "fooicon-sort-desc" x))).
    rewrite <- (filter_filter_and
                  (fun x => negb (String.eqb "fooicon-sort-asc" x))
                  (fun x => negb (String.eqb "fooicon-sort-desc" x))).
    change (hasClass "fooicon"
              (removeClass "fooicon-sort-desc"
                 (removeClass "fooicon-sort-asc" (removeClass "fooicon-sort" l)))
            = hasClass "fooicon" l).
    rewrite !hasClass_removeClass. reflexivity. }
  unfold drawn_icon. destruct (hasClass "fooicon" sp) eqn:Hsp; [|rewrite Hsp; reflexivity].
  destruct sortable, here.
  - rewrite hasClass_addClass_other, Hf, Hsp by (destruct asc; reflexivity).
    apply addClass_filter_again. destruct asc; reflexivity.
  - rewrite hasClass_addClass_other, Hf, Hsp by reflexivity.
    apply addClass_filter_again. reflexivity.
  - rewrite hasClass_addClass_other, Hsp by (destruct asc; reflexivity).
    apply addClass_again.
  - rewrite Hsp. reflexivity.
Qed.

Lemma draw_header_again (h : nat) (asc : bool) (i : nat) (e : Element) :
  draw_header h asc i (draw_header h asc i e) = draw_header h asc i e.
Proof.
  rewrite (draw_header_closed h asc i e).
  rewrite draw_header_closed. cbn [classes spans].
  rewrite drawn_classes_sortable, drawn_classes_again. f_equal.
  rewrite map_map. apply map_ext. intros sp. apply drawn_icon_again.
Qed.

(** X16.  A second [draw] changes nothing: when [draw] returns a state,
    [draw] on that state returns it again.  No class is added twice to a
    header or to an icon, and no mark is lost. *)
Theorem draw_twice (st st' : FT) :
  draw st = Ok st' -> draw st' = Ok st'.
Proof.
  intros H.
  destruct (negb (enabled (o st)) || falsy_column (column (o st))
            || falsy_direction (direction (o st))) eqn:Hg.
  - unfold draw in H. rewrite Hg in H. injection H as <-.
    unfold draw. rewrite Hg. reflexivity.
  - assert (Hc : exists h, column (o st) = CColumn h
                           /\ (h < length (columns st))%nat).
    { unfold draw in H. rewrite Hg in H.
      destruct (column (o st)) as [| | |h]; try discriminate.
      destruct (Nat.ltb_spec h (length (columns st))); [eauto | discriminate]. }
    destruct Hc as (h & Hc & Hh).
    rewrite (draw_by_header st h Hg Hc Hh) in H. injection H as <-.
    rewrite (draw_by_header _ h);
      [| exact Hg | exact Hc | cbn [columns set_columns]; rewrite length_imap; exact Hh].
    cbn [columns o set_columns]. f_equal.
    unfold set_columns. cbn. f_equal.
    apply list_eq. intros i. rewrite !list_lookup_imap.
    destruct (columns st !! i) as [c|]; [|reflexivity].
    cbn [fmap option_fmap option_map]. f_equal.
    unfold set_el. cbn [col_name col_index col_sorter col_direction
                        col_sortable col_sorted col_el].
    f_equal. apply draw_header_again.
Qed.

Lemma draw_twice_witness :
  exists st',
    draw (price_descending no_conversion) = Ok st' /\ draw st' = Ok st'.
Proof.
  destruct (draw_resolved (price_descending no_conversion) 1 eq_refl)
    as (st' & Hd); [simpl; lia|].
  exists st'. split; [exact Hd | exact (draw_twice _ _ Hd)].
Defined.
